(** * PixelTransformDispatcher: the image-copy kernel and its host wrapper

    A shallow embedding of [kernelforpictures.cpp]: the CUDA kernel
    [processImageKernel] and the host entry point [processImage], together
    with a small executable model of the part of the CUDA runtime the two
    functions call (device allocations, blocking copies, kernel launches on
    the default stream).

    Conventions.
    - A C [int] is a [Z] in [INT_MIN, INT_MAX]; every [int] operation is
      followed by [to_int] (two's-complement wrap-around), every
      [unsigned int] operation by [to_uint], and the conversion of a byte
      count to [size_t] is [to_size_t].
    - An [unsigned char] is a [Byte.byte]; a buffer is a [list byte].
    - Host and device memory are finite maps from allocation names to
      buffers.  A pointer names an allocation of one of the two memories, or
      is [Wild]: the value of a local pointer that was never assigned.

    What the runtime model assumes.
    - [cudaMalloc] succeeds exactly when the device has that many free
      bytes; fresh device memory holds arbitrary bytes.
    - [cudaMemcpy] and [cudaFree] are blocking and first wait for the
      default stream; a launch only queues its kernel.  A copy is refused
      when a pointer is not of the memory its direction says or a buffer is
      shorter than the byte count.
    - The device interleaves the threads of a kernel as it likes, one
      memory operation at a time; a thread that touches an illegal address
      traps and stops there.  Limits on grid extents are not modelled, nor
      are errors that persist after a trap. *)

From Stdlib Require Import ZArith Lia List Permutation.
From Stdlib Require Import Strings.Byte.
From stdpp Require Import base numbers option list gmap.

Local Open Scope Z_scope.

(** ** Machine integers *)

Module CInt.

Definition INT_MAX : Z := 2147483647.
Definition INT_MIN : Z := -2147483648.

(** Value of a mathematical integer once stored in an [int]. *)
Definition to_int (z : Z) : Z := (z + 2 ^ 31) mod 2 ^ 32 - 2 ^ 31.
(** ... in an [unsigned int]. *)
Definition to_uint (z : Z) : Z := z mod 2 ^ 32.
(** ... in a [size_t] (64 bits). *)
Definition to_size_t (z : Z) : Z := z mod 2 ^ 64.

Definition is_int (z : Z) : Prop := INT_MIN ≤ z ≤ INT_MAX.

(** [int] arithmetic. *)
Definition iadd (a b : Z) : Z := to_int (a + b).
Definition imul (a b : Z) : Z := to_int (a * b).

(** [unsigned int] arithmetic. *)
Definition uadd (a b : Z) : Z := to_uint (a + b).
Definition usub (a b : Z) : Z := to_uint (a - b).
Definition umul (a b : Z) : Z := to_uint (a * b).
Definition udiv (a b : Z) : Z := a / b.

End CInt.
Export CInt.

(** ** Launch geometry *)

(** [dim3] with the two extents the program uses; the third extent is 1 for
    both the grid and the block of the only launch. *)
Record dim3 := Dim3 { dim3_x : Z; dim3_y : Z }.

(** The built-in variables one device thread sees. *)
Record thread := Thread { blockIdx : dim3; threadIdx : dim3 }.

Global Instance dim3_eq_dec : EqDecision dim3.
Proof. solve_decision. Defined.
Global Instance thread_eq_dec : EqDecision thread.
Proof. solve_decision. Defined.

(** All threads of a launch: every thread index of every block index. *)
Definition grid_threads (gridDim blockDim : dim3) : list thread :=
  by_ ← seqZ 0 (dim3_y gridDim);
  bx ← seqZ 0 (dim3_x gridDim);
  ty ← seqZ 0 (dim3_y blockDim);
  tx ← seqZ 0 (dim3_x blockDim);
  [Thread (Dim3 bx by_) (Dim3 tx ty)].

(** ** Memory *)

Inductive ptr :=
  | Host (a : positive)      (* a buffer of host memory *)
  | Device (h : positive)    (* an allocation of device memory *)
  | Wild.                    (* indeterminate: never assigned *)

Global Instance ptr_eq_dec : EqDecision ptr.
Proof. solve_decision. Defined.

Global Instance byte_eq_dec : EqDecision byte.
Proof. intros a b. destruct (Byte.byte_eq_dec a b); [left|right]; done. Defined.

(** [p[i]] in a memory: the allocation must be live and the index inside it. *)
Definition in_bounds (mem : gmap positive (list byte)) (h : positive) (i : Z)
  : option byte :=
  buf ← mem !! h;
  if decide (0 ≤ i) then buf !! Z.to_nat i else None.

(** ** Device threads *)

Inductive access :=
  | Load (p : ptr) (i : Z) (v : byte)     (* p[i] was read and gave v *)
  | Store (p : ptr) (i : Z) (v : byte)    (* v was written to p[i] *)
  | Fault (p : ptr) (i : Z).              (* p[i] is not a valid address *)

Global Instance access_eq_dec : EqDecision access.
Proof. solve_decision. Defined.

Definition access_ptr (a : access) : ptr :=
  match a with Load p _ _ | Store p _ _ | Fault p _ => p end.
Definition access_index (a : access) : Z :=
  match a with Load _ i _ | Store _ i _ | Fault _ i => i end.

(** What a running kernel sees and leaves behind: device memory and the
    accesses attempted so far, oldest first. *)
Record kstate := KState {
  k_mem : gmap positive (list byte);
  k_log : list access
}.

(** Device code: what a thread has left to do is a sequence of memory
    operations, each read feeding the code that follows it.  The device
    interleaves the threads of a kernel at the level of these operations. *)
Inductive K (A : Type) : Type :=
  | Ret (a : A)
  | LoadK (p : ptr) (i : Z) (k : byte → K A)
  | StoreK (p : ptr) (i : Z) (v : byte) (k : K A).

Arguments Ret {A} a.
Arguments LoadK {A} p i k.
Arguments StoreK {A} p i v k.

Fixpoint K_then {A B} (f : A → K B) (m : K A) : K B :=
  match m with
  | Ret a => f a
  | LoadK p i k => LoadK p i (λ v, K_then f (k v))
  | StoreK p i v k => StoreK p i v (K_then f k)
  end.

Global Instance K_ret : MRet K := @Ret.
Global Instance K_bind : MBind K := @K_then.

(** [p[i]] as an expression, and [p[i] = v] as a statement. *)
Definition load (p : ptr) (i : Z) : K byte := LoadK p i Ret.
Definition store (p : ptr) (i : Z) (v : byte) : K unit := StoreK p i v (Ret tt).

(** The byte a device pointer designates at subscript [i], if any. *)
Definition resolve (mem : gmap positive (list byte)) (p : ptr) (i : Z)
  : option byte :=
  match p with
  | Device h => in_bounds mem h i
  | _ => None
  end.

(** The memory after [p[i] = v], for a valid [p[i]]. *)
Definition write (mem : gmap positive (list byte)) (p : ptr) (i : Z) (v : byte)
  : gmap positive (list byte) :=
  match p with
  | Device h => alter (λ buf, <[Z.to_nat i := v]> buf) h mem
  | _ => mem
  end.

(** One memory operation of a thread.  The thread goes on with the rest of
    its code, or traps ([None]) on an illegal address and stops there; a
    thread that has returned stays as it is. *)
Definition step (code : K unit) (s : kstate) : option (K unit) * kstate :=
  match code with
  | Ret _ => (Some code, s)
  | LoadK p i k =>
      match resolve (k_mem s) p i with
      | Some v => (Some (k v), KState (k_mem s) (k_log s ++ [Load p i v]))
      | None => (None, KState (k_mem s) (k_log s ++ [Fault p i]))
      end
  | StoreK p i v k =>
      match resolve (k_mem s) p i with
      | Some _ => (Some k, KState (write (k_mem s) p i v)
                                  (k_log s ++ [Store p i v]))
      | None => (None, KState (k_mem s) (k_log s ++ [Fault p i]))
      end
  end.

(** A thread run on its own until it returns ([true]) or traps. *)
Fixpoint finish (code : K unit) (s : kstate) : bool * kstate :=
  match code with
  | Ret _ => (true, s)
  | LoadK p i k =>
      match resolve (k_mem s) p i with
      | Some v => finish (k v) (KState (k_mem s) (k_log s ++ [Load p i v]))
      | None => (false, KState (k_mem s) (k_log s ++ [Fault p i]))
      end
  | StoreK p i v k =>
      match resolve (k_mem s) p i with
      | Some _ => finish k (KState (write (k_mem s) p i v)
                                   (k_log s ++ [Store p i v]))
      | None => (false, KState (k_mem s) (k_log s ++ [Fault p i]))
      end
  end.

(** The device follows a schedule: a list of thread numbers, each entry
    letting that thread make one memory operation.  The threads in flight
    are the code each has left, [None] for a thread that trapped. *)
Fixpoint run_schedule (schedule : list nat) (pool : list (option (K unit)))
    (s : kstate) : list (option (K unit)) * kstate :=
  match schedule with
  | [] => (pool, s)
  | j :: schedule' =>
      match pool !! j with
      | Some (Some code) =>
          let '(code', s') := step code s in
          run_schedule schedule' (<[j := code']> pool) s'
      | _ => run_schedule schedule' pool s
      end
  end.

(** Whatever the schedule left undone is then run to the end, thread by
    thread.  The boolean tells whether no thread trapped. *)
Fixpoint finish_all (pool : list (option (K unit))) (s : kstate)
  : bool * kstate :=
  match pool with
  | [] => (true, s)
  | None :: pool' => let '(_, s') := finish_all pool' s in (false, s')
  | Some code :: pool' =>
      let '(ok, s1) := finish code s in
      let '(ok', s2) := finish_all pool' s1 in
      (ok && ok', s2)
  end.

(** The execution of a kernel: every thread starts with the whole body, the
    schedule interleaves them, and all of them are run to the end. *)
Definition run_kernel (schedule : list nat) (body : thread → K unit)
    (ts : list thread) (s : kstate) : bool * kstate :=
  let '(pool, s1) := run_schedule schedule ((λ t, Some (body t)) <$> ts) s in
  finish_all pool s1.

(** *** The kernel (kernelforpictures.cpp, lines 4-14) *)

(** Lines 6-7: the pixel a thread is responsible for.  The products and sums
    are [unsigned int]; the results are stored in [int]s. *)
Definition kernel_x (blockIdx blockDim threadIdx : dim3) : Z :=
  to_int (uadd (umul (dim3_x blockIdx) (dim3_x blockDim)) (dim3_x threadIdx)).
Definition kernel_y (blockIdx blockDim threadIdx : dim3) : Z :=
  to_int (uadd (umul (dim3_y blockIdx) (dim3_y blockDim)) (dim3_y threadIdx)).

(** The subscript [3 * (y * width + x) + c], in [int] arithmetic. *)
Definition subscript (width x y c : Z) : Z :=
  iadd (imul 3 (iadd (imul y width) x)) c.

Definition processImageKernel (input output : ptr) (width height : Z)
    (blockIdx blockDim threadIdx : dim3) : K unit :=
  let x := kernel_x blockIdx blockDim threadIdx in
  let y := kernel_y blockIdx blockDim threadIdx in
  if bool_decide (x < width) && bool_decide (y < height) then
    v0 ← load input (subscript width x y 0);
    store output (subscript width x y 0) v0;;
    v1 ← load input (subscript width x y 1);
    store output (subscript width x y 1) v1;;
    v2 ← load input (subscript width x y 2);
    store output (subscript width x y 2) v2
  else mret tt.

(** ** The host and the CUDA runtime *)

Inductive cudaError :=
  | cudaSuccess
  | cudaErrorInvalidValue
  | cudaErrorMemoryAllocation
  | cudaErrorInvalidConfiguration.

Inductive cudaMemcpyKind :=
  | cudaMemcpyHostToDevice
  | cudaMemcpyDeviceToHost.

Global Instance cudaError_eq_dec : EqDecision cudaError.
Proof. solve_decision. Defined.
Global Instance cudaMemcpyKind_eq_dec : EqDecision cudaMemcpyKind.
Proof. solve_decision. Defined.

(** A kernel waiting on the default stream: the launch configuration and the
    kernel with its arguments bound. *)
Record launch := Launch {
  l_grid : dim3;
  l_block : dim3;
  l_kernel : dim3 → dim3 → dim3 → K unit   (* blockIdx, blockDim, threadIdx *)
}.

(** What can be observed of a run, oldest first: every runtime call with the
    status it returned, and every kernel execution with its memory accesses
    and whether it ran without a trap. *)
Inductive event :=
  | EvMalloc (size : Z) (r : cudaError) (p : ptr)
  | EvMemcpy (dst src : ptr) (count : Z) (kind : cudaMemcpyKind) (r : cudaError)
  | EvLaunch (gridDim blockDim : dim3) (r : cudaError)
  | EvKernel (log : list access) (ok : bool)
  | EvFree (p : ptr) (r : cudaError).

Record World := MkWorld {
  host_mem : gmap positive (list byte);   (* host buffers *)
  dev_mem : gmap positive (list byte);    (* live device allocations *)
  dev_free : Z;                           (* device bytes still available *)
  dev_junk : nat → byte;                  (* contents of fresh device memory *)
  dev_sched : list thread → list nat;     (* schedule of a kernel's threads *)
  dev_queue : list launch;                (* default stream, oldest first *)
  trace : list event
}.

Definition set_host_mem (m : gmap positive (list byte)) (w : World) : World :=
  MkWorld m (dev_mem w) (dev_free w) (dev_junk w) (dev_sched w) (dev_queue w)
          (trace w).
Definition set_dev_mem (m : gmap positive (list byte)) (w : World) : World :=
  MkWorld (host_mem w) m (dev_free w) (dev_junk w) (dev_sched w) (dev_queue w)
          (trace w).
Definition set_dev_free (n : Z) (w : World) : World :=
  MkWorld (host_mem w) (dev_mem w) n (dev_junk w) (dev_sched w) (dev_queue w)
          (trace w).
Definition set_dev_queue (q : list launch) (w : World) : World :=
  MkWorld (host_mem w) (dev_mem w) (dev_free w) (dev_junk w) (dev_sched w) q
          (trace w).
Definition emit (e : event) (w : World) : World :=
  MkWorld (host_mem w) (dev_mem w) (dev_free w) (dev_junk w) (dev_sched w)
          (dev_queue w) (trace w ++ [e]).

(** Host code: a state transformer over the world. *)
Definition HostM (A : Type) : Type := World → A * World.

Global Instance HostM_ret : MRet HostM := λ A a w, (a, w).
Global Instance HostM_bind : MBind HostM := λ A B f m w,
  let '(a, w') := m w in f a w'.

Definition exec {A} (m : HostM A) (w : World) : World := snd (m w).

(** The device executes one queued kernel: all its threads, interleaved as
    the scheduler decides. *)
Definition run_launch (w : World) (l : launch) : World :=
  let ts := grid_threads (l_grid l) (l_block l) in
  let body := λ t, l_kernel l (blockIdx t) (l_block l) (threadIdx t) in
  let '(ok, s) := run_kernel (dev_sched w ts) body ts (KState (dev_mem w) []) in
  emit (EvKernel (k_log s) ok) (set_dev_mem (k_mem s) w).

(** Blocking runtime calls first wait until the default stream is empty. *)
Definition drain (w : World) : World :=
  set_dev_queue [] (foldl run_launch w (dev_queue w)).

(** [cudaMalloc(&p, size)]: on success a fresh allocation of [size] bytes is
    stored in [p]; on failure [p] keeps the value it had.  The new value of
    [p] is returned next to the status. *)
Definition cudaMalloc (p : ptr) (size : Z) : HostM (cudaError * ptr) := λ w,
  if decide (size ≤ dev_free w) then
    let h := fresh (dom (dev_mem w)) in
    let buf := dev_junk w <$> seq 0 (Z.to_nat size) in
    ((cudaSuccess, Device h),
     emit (EvMalloc size cudaSuccess (Device h))
          (set_dev_free (dev_free w - size)
             (set_dev_mem (<[h := buf]> (dev_mem w)) w)))
  else
    ((cudaErrorMemoryAllocation, p),
     emit (EvMalloc size cudaErrorMemoryAllocation p) w).

(** Copy of the first [count] bytes of [src] over the first [count] bytes of
    [dst]. *)
Definition blit (dst src : list byte) (count : Z) : list byte :=
  take (Z.to_nat count) src ++ drop (Z.to_nat count) dst.

(** [cudaMemcpy(dst, src, count, kind)]: blocking; both pointers must be of
    the memory [kind] says and both buffers must hold [count] bytes. *)
Definition cudaMemcpy (dst src : ptr) (count : Z) (kind : cudaMemcpyKind)
  : HostM cudaError := λ w,
  let w := drain w in
  let fail := (cudaErrorInvalidValue,
               emit (EvMemcpy dst src count kind cudaErrorInvalidValue) w) in
  match kind, dst, src with
  | cudaMemcpyHostToDevice, Device h, Host a =>
      match dev_mem w !! h, host_mem w !! a with
      | Some d, Some s =>
          if decide (count ≤ Z.of_nat (length d) ∧ count ≤ Z.of_nat (length s)) then
            (cudaSuccess,
             emit (EvMemcpy dst src count kind cudaSuccess)
                  (set_dev_mem (<[h := blit d s count]> (dev_mem w)) w))
          else fail
      | _, _ => fail
      end
  | cudaMemcpyDeviceToHost, Host a, Device h =>
      match host_mem w !! a, dev_mem w !! h with
      | Some d, Some s =>
          if decide (count ≤ Z.of_nat (length d) ∧ count ≤ Z.of_nat (length s)) then
            (cudaSuccess,
             emit (EvMemcpy dst src count kind cudaSuccess)
                  (set_host_mem (<[a := blit d s count]> (host_mem w)) w))
          else fail
      | _, _ => fail
      end
  | _, _, _ => fail
  end.

(** [kernel<<<gridDim, blockDim>>>(args)]: the kernel is put on the default
    stream and the call returns at once; an empty grid or block is refused. *)
Definition cudaLaunchKernel (gridDim blockDim : dim3)
    (kernel : dim3 → dim3 → dim3 → K unit) : HostM cudaError := λ w,
  if decide (0 < dim3_x gridDim ∧ 0 < dim3_y gridDim ∧
             0 < dim3_x blockDim ∧ 0 < dim3_y blockDim) then
    (cudaSuccess,
     emit (EvLaunch gridDim blockDim cudaSuccess)
          (set_dev_queue (dev_queue w ++ [Launch gridDim blockDim kernel]) w))
  else
    (cudaErrorInvalidConfiguration,
     emit (EvLaunch gridDim blockDim cudaErrorInvalidConfiguration) w).

(** [cudaFree(p)]: blocking; releases a live device allocation. *)
Definition cudaFree (p : ptr) : HostM cudaError := λ w,
  let w := drain w in
  match p with
  | Device h =>
      match dev_mem w !! h with
      | Some buf =>
          (cudaSuccess,
           emit (EvFree p cudaSuccess)
                (set_dev_free (dev_free w + Z.of_nat (length buf))
                   (set_dev_mem (delete h (dev_mem w)) w)))
      | None => (cudaErrorInvalidValue, emit (EvFree p cudaErrorInvalidValue) w)
      end
  | _ => (cudaErrorInvalidValue, emit (EvFree p cudaErrorInvalidValue) w)
  end.

(** *** The entry point (kernelforpictures.cpp, lines 16-33) *)

(** Lines 24-26.  [width + dimBlock.x - 1] mixes [int] and [unsigned int],
    so the whole expression is evaluated in [unsigned int]. *)
Definition dimBlock : dim3 := Dim3 16 16.
Definition dimGrid (width height : Z) (dimBlock : dim3) : dim3 :=
  Dim3 (udiv (usub (uadd (to_uint width) (dim3_x dimBlock)) 1) (dim3_x dimBlock))
       (udiv (usub (uadd (to_uint height) (dim3_y dimBlock)) 1) (dim3_y dimBlock)).

(** Every status the runtime returns is dropped, as in the source; the two
    local pointers start out [Wild]; the byte count [width * height * 3] is
    an [int] expression converted to [size_t] at each call. *)
Definition processImage (input output : ptr) (width height : Z) : HostM unit :=
  let d_input := Wild in
  let d_output := Wild in
  '(_, d_input) ← cudaMalloc d_input (to_size_t (imul (imul width height) 3));
  '(_, d_output) ← cudaMalloc d_output (to_size_t (imul (imul width height) 3));
  _ ← cudaMemcpy d_input input (to_size_t (imul (imul width height) 3))
                 cudaMemcpyHostToDevice;
  _ ← cudaLaunchKernel (dimGrid width height dimBlock) dimBlock
        (processImageKernel d_input d_output width height);
  _ ← cudaMemcpy output d_output (to_size_t (imul (imul width height) 3))
                 cudaMemcpyDeviceToHost;
  _ ← cudaFree d_input;
  _ ← cudaFree d_output;
  mret tt.

(** *** What the host asked of the runtime *)

(** A runtime call without its outcome: the statuses and the pointers handed
    back are dropped, kernel executions are not calls. *)
Inductive api_call :=
  | CallMalloc (size : Z)
  | CallMemcpy (count : Z) (kind : cudaMemcpyKind)
  | CallLaunch (gridDim blockDim : dim3)
  | CallFree.

Definition api_of (e : event) : option api_call :=
  match e with
  | EvMalloc size _ _ => Some (CallMalloc size)
  | EvMemcpy _ _ count kind _ => Some (CallMemcpy count kind)
  | EvLaunch g b _ => Some (CallLaunch g b)
  | EvKernel _ _ => None
  | EvFree _ _ => Some CallFree
  end.

Definition calls (tr : list event) : list api_call := omap api_of tr.

(** The status of every runtime call of a trace. *)
Definition status_of (e : event) : option cudaError :=
  match e with
  | EvMalloc _ r _ | EvMemcpy _ _ _ _ r | EvLaunch _ _ r | EvFree _ r => Some r
  | EvKernel _ _ => None
  end.

Definition statuses (tr : list event) : list cudaError := omap status_of tr.

(** The byte counts handed to allocations and copies. *)
Definition bytes_of (e : event) : option Z :=
  match e with
  | EvMalloc size _ _ => Some size
  | EvMemcpy _ _ count _ _ => Some count
  | _ => None
  end.

Definition byte_counts (tr : list event) : list Z := omap bytes_of tr.

(** *** Sample worlds *)

(** An idle device with [free] bytes available, zero-filled fresh memory and
    threads that advance in lockstep, the last thread first, for four
    memory operations each. *)
Definition lockstep (ts : list thread) : list nat :=
  mjoin (replicate 4 (reverse (seq 0 (length ts)))).

Definition idle_world (hm : gmap positive (list byte)) (free : Z) : World :=
  MkWorld hm ∅ free (λ _, x00) lockstep [] [].

Definition rgb_2x2 : list byte :=
  [ xff; x00; x00;  x00; xff; x00;  x00; x00; xff;  xff; xff; xff ].

Definition world_2x2 : World :=
  idle_world (<[1%positive := rgb_2x2]> (<[2%positive := replicate 12 x00]> ∅))
             (2 ^ 30).


(** ** Vocabulary of the statements *)

(** [m'] differs from [m] at most in the contents of the allocation [out]
    designates; no allocation appears, disappears or changes size. *)
Definition mem_frame (out : ptr) (m m' : gmap positive (list byte)) : Prop :=
  (∀ h, out ≠ Device h → m' !! h = m !! h) ∧
  (∀ h, length <$> (m' !! h) = length <$> (m !! h)).

(** Device code confined to [out] with accesses in [Q]: whatever it reads,
    it only writes through [out] and only attempts accesses that satisfy
    [Q]. *)
Inductive within {A} (out : ptr) (Q : access → Prop) : K A → Prop :=
  | within_ret a : within out Q (Ret a)
  | within_load p i k :
      (∀ v, Q (Load p i v)) → Q (Fault p i) → (∀ v, within out Q (k v)) →
      within out Q (LoadK p i k)
  | within_store i v k :
      Q (Store out i v) → Q (Fault out i) → within out Q k →
      within out Q (StoreK out i v k).

Definition pool_within (out : ptr) (Q : access → Prop)
    (pool : list (option (K unit))) : Prop :=
  Forall (λ tp, ∀ code, tp = Some code → within out Q code) pool.

(** From [s] to [s'] only [out] was written, and the accesses added to the
    log satisfy [Q]. *)
Definition stays_within (out : ptr) (Q : access → Prop) (s s' : kstate)
  : Prop :=
  mem_frame out (k_mem s) (k_mem s') ∧
  ∃ log, k_log s' = k_log s ++ log ∧ Forall Q log.

(** An access that is in bounds and moves the byte [bin] has there, from
    the device input buffer [hi] or to the device output buffer [ho]. *)
Definition faithful (hi ho : positive) (bin : list byte) (a : access) : Prop :=
  match a with
  | Load p i v => p = Device hi ∧ 0 ≤ i ∧ bin !! Z.to_nat i = Some v
  | Store p i v => p = Device ho ∧ 0 ≤ i ∧ bin !! Z.to_nat i = Some v
  | Fault _ _ => False
  end.

(** The subscripts a kernel execution wrote to, in the order of the
    writes. *)
Definition store_index (a : access) : option Z :=
  match a with Store _ i _ => Some i | _ => None end.

Definition store_indices (log : list access) : list Z := omap store_index log.

(** Device code that copies [bin] from [hi] to [ho] at the subscripts
    [todo], in that order: each subscript is read from [hi], then written to
    [ho] with the byte [bin] has there.  The head of [todo] is the subscript
    being copied, whether its read has happened or not. *)
Inductive copies (hi ho : positive) (bin : list byte)
  : list Z → K unit → Prop :=
  | copies_ret : copies hi ho bin [] (Ret tt)
  | copies_load i todo k :
      0 ≤ i → is_Some (bin !! Z.to_nat i) →
      (∀ v, bin !! Z.to_nat i = Some v → copies hi ho bin (i :: todo) (k v)) →
      copies hi ho bin (i :: todo) (LoadK (Device hi) i k)
  | copies_store i v todo k :
      0 ≤ i → bin !! Z.to_nat i = Some v → copies hi ho bin todo k →
      copies hi ho bin (i :: todo) (StoreK (Device ho) i v k).

(** A kernel in flight that copies [bin] from [hi] to [ho]: thread number
    [j] still has the subscripts [todos !! j] to copy; [all] lists the
    subscripts of all threads at the start; each of them is either still to
    do or already right in the output buffer; every subscript has been
    written at most once; the rest of device memory is as in [m0]. *)
Definition pool_copying (hi ho : positive) (bin : list byte)
    (m0 : gmap positive (list byte)) (all : list Z)
    (todos : list (list Z)) (pool : list (option (K unit))) (s : kstate)
  : Prop :=
  Forall2 (λ todo tp, ∃ code, tp = Some code ∧ copies hi ho bin todo code)
          todos pool ∧
  k_mem s !! hi = Some bin ∧
  (∃ bo, k_mem s !! ho = Some bo ∧ length bo = length bin ∧
         ∀ j, j ∈ all →
              j ∈ mjoin todos ∨ bo !! Z.to_nat j = bin !! Z.to_nat j) ∧
  (∀ h, h ≠ ho → k_mem s !! h = m0 !! h) ∧
  Forall (faithful hi ho bin) (k_log s) ∧
  store_indices (k_log s) ++ mjoin todos ≡ₚ all.


(** The subscripts of the pixel of a thread the guard lets through. *)
Definition thread_done (width height : Z) (bd : dim3) (t : thread) (j : Z)
  : Prop :=
  kernel_x (blockIdx t) bd (threadIdx t) < width ∧
  kernel_y (blockIdx t) bd (threadIdx t) < height ∧
  ∃ c, 0 ≤ c < 3 ∧
    j = 3 * (kernel_y (blockIdx t) bd (threadIdx t) * width
             + kernel_x (blockIdx t) bd (threadIdx t)) + c.

(** The subscripts done once all threads of [ts] have run. *)
Definition threads_done (width height : Z) (bd : dim3) (ts : list thread)
    (j : Z) : Prop :=
  ∃ t, t ∈ ts ∧ thread_done width height bd t j.

(** The subscripts a thread writes to when nothing traps: the three of its
    pixel if the guard lets it through, none otherwise. *)
Definition thread_stores (width height : Z) (bd : dim3) (t : thread)
  : list Z :=
  let x := kernel_x (blockIdx t) bd (threadIdx t) in
  let y := kernel_y (blockIdx t) bd (threadIdx t) in
  if bool_decide (x < width) && bool_decide (y < height) then
    [subscript width x y 0; subscript width x y 1; subscript width x y 2]
  else [].

(** The thread in charge of pixel [(x, y)]. *)
Definition thread_of_pixel (x y : Z) : thread :=
  Thread (Dim3 (x / 16) (y / 16)) (Dim3 (x mod 16) (y mod 16)).

(** The pixel of a thread, as lines 6-7 compute it. *)
Definition thread_pixel (blockDim : dim3) (t : thread) : Z * Z :=
  (kernel_x (blockIdx t) blockDim (threadIdx t),
   kernel_y (blockIdx t) blockDim (threadIdx t)).

(** Events of the device, as opposed to calls of the host. *)
Definition kernel_events (evs : list event) : Prop :=
  Forall (λ e, ∃ log ok, e = EvKernel log ok) evs.

(** What follows a launch: accepted, and the kernel is executed once before
    the next blocking call returns; or refused, and no kernel runs. *)
Definition launch_outcome (r : cudaError) (kevs : list event) : Prop :=
  (r = cudaSuccess ∧ ∃ log ok, kevs = [EvKernel log ok]) ∨
  (r = cudaErrorInvalidConfiguration ∧ kevs = []).

(** What [cudaFree p] leaves of device memory, and the bytes it gives back:
    nothing changes unless [p] is a live allocation. *)
Definition release (p : ptr) (dm : gmap positive (list byte))
  : gmap positive (list byte) :=
  match p with Device h => delete h dm | _ => dm end.
Definition released (p : ptr) (dm : gmap positive (list byte)) : Z :=
  match p with
  | Device h => from_option (λ buf, Z.of_nat (length buf)) 0 (dm !! h)
  | _ => 0
  end.

(** The statements of [processImage] that follow the two allocations. *)
Definition processImage_rest (d_input d_output input output : ptr)
    (width height : Z) : HostM unit :=
  _ ← cudaMemcpy d_input input (to_size_t (imul (imul width height) 3))
                 cudaMemcpyHostToDevice;
  _ ← cudaLaunchKernel (dimGrid width height dimBlock) dimBlock
        (processImageKernel d_input d_output width height);
  _ ← cudaMemcpy output d_output (to_size_t (imul (imul width height) 3))
                 cudaMemcpyDeviceToHost;
  _ ← cudaFree d_input;
  _ ← cudaFree d_output;
  mret tt.

(** *** More sample worlds *)

(** A host with three buffers of 2147483649 bytes, one more than [INT_MAX]
    plus one, next to an idle device with 64 GiB free: room for a
    715827883 x 1 image and its device copies. *)
Definition big_len : nat := Z.to_nat 2147483649.

Definition big_world : World :=
  idle_world (<[1%positive := replicate big_len x00]>
              (<[2%positive := replicate big_len x01]>
               (<[3%positive := replicate big_len x02]> ∅)))
             (2 ^ 36).

(** A 17 x 3 image whose 153 bytes are all different, and an output buffer
    of 153 zero bytes. *)
Definition image_17x3 : list byte :=
  (λ n, default x00 (Byte.of_nat n)) <$> seq 0 153.

Definition world_17x3 : World :=
  idle_world (<[1%positive := image_17x3]>
              (<[2%positive := replicate 153 x00]> ∅))
             (2 ^ 30).

(** A single pixel. *)
Definition world_1x1 : World :=
  idle_world (<[1%positive := [x0a; x14; x1e]]>
              (<[2%positive := replicate 3 x00]> ∅))
             (2 ^ 30).

Definition world_2x2_twice : World :=
  idle_world (<[1%positive := rgb_2x2]>
              (<[2%positive := replicate 12 x00]>
               (<[3%positive := replicate 12 x11]> ∅)))
             (2 ^ 30).

(** A world in which the second allocation fails: 15 free bytes for two
    buffers of 12. *)
Definition world_2x2_short : World :=
  idle_world (<[1%positive := rgb_2x2]> (<[2%positive := replicate 12 x00]> ∅))
             15.

(** A world in which every allocation fails: no free device memory. *)
Definition world_2x2_full : World :=
  idle_world (<[1%positive := rgb_2x2]> (<[2%positive := replicate 12 x00]> ∅))
             0.

(** *** Worlds for the edge cases *)

(** Host buffers larger than a 2 x 2 image: 15 bytes of input, 14 of
    output. *)
Definition rgb_2x2_padded : list byte := rgb_2x2 ++ [x01; x02; x03].

Definition world_2x2_roomy : World :=
  idle_world (<[1%positive := rgb_2x2_padded]>
              (<[2%positive := replicate 14 x77]> ∅))
             (2 ^ 30).

(** A device whose fresh memory is not zero: byte number [i] of a new
    allocation holds [i + 160]. *)
Definition stale (i : nat) : byte := default x00 (Byte.of_nat (i + 160)).

Definition world_2x2_stale : World :=
  MkWorld (<[1%positive := rgb_2x2]> (<[2%positive := replicate 12 x00]> ∅))
          ∅ (2 ^ 30) stale lockstep [] [].

(** *** More vocabulary *)

(** The accesses the kernel is meant to make: reads through [input], writes
    through [output]. *)
Definition kernel_access (input output : ptr) (a : access) : Prop :=
  match a with
  | Load p _ _ => p = input
  | Store p _ _ => p = output
  | Fault p _ => p = input ∨ p = output
  end.

(** The threads the guard of line 9 lets through. *)
Definition in_image (width height : Z) (blockDim : dim3) (t : thread) : Prop :=
  fst (thread_pixel blockDim t) < width ∧ snd (thread_pixel blockDim t) < height.

Global Instance in_image_dec width height blockDim t :
  Decision (in_image width height blockDim t).
Proof. unfold in_image. apply _. Defined.

(** Threads in flight that each copy part of the buffer [h] onto itself. *)
Definition pool_in_place (h : positive) (buf : list byte)
    (pool : list (option (K unit))) : Prop :=
  Forall (λ tp, ∃ todo code, tp = Some code ∧ copies h h buf todo code) pool.

(** A device memory with the 2 x 2 image in allocation 1 and twelve zero
    bytes in allocation 2. *)
Definition device_2x2 : gmap positive (list byte) :=
  <[1%positive := rgb_2x2]> (<[2%positive := replicate 12 x00]> ∅).

(** * Properties *)

(** ** Machine arithmetic *)

(** Side conditions on the ranges of [int] and [unsigned int]. *)
Ltac in_int := unfold is_int, INT_MIN, INT_MAX in *; lia.
Ltac in_uint := change (2 ^ 32) with 4294967296 in *; lia.

Lemma to_int_id z : is_int z → to_int z = z.
Proof.
  unfold is_int, INT_MIN, INT_MAX, to_int. intros Hz.
  change (2 ^ 31) with 2147483648. change (2 ^ 32) with 4294967296.
  rewrite Z.mod_small; lia.
Qed.

Lemma to_int_is_int z : is_int (to_int z).
Proof.
  unfold is_int, INT_MIN, INT_MAX, to_int.
  change (2 ^ 31) with 2147483648. change (2 ^ 32) with 4294967296.
  pose proof (Z.mod_pos_bound (z + 2147483648) 4294967296). lia.
Qed.

Lemma to_int_congr z : to_int z mod 2 ^ 32 = z mod 2 ^ 32.
Proof.
  unfold to_int. rewrite Zminus_mod, Zmod_mod, <- Zminus_mod.
  f_equal. lia.
Qed.

Lemma to_uint_id z : 0 ≤ z < 2 ^ 32 → to_uint z = z.
Proof. intros Hz. unfold to_uint. by apply Z.mod_small. Qed.

Lemma to_size_t_id z : 0 ≤ z < 2 ^ 64 → to_size_t z = z.
Proof. intros Hz. unfold to_size_t. by apply Z.mod_small. Qed.

Lemma to_size_t_nonneg z : 0 ≤ to_size_t z.
Proof. unfold to_size_t. apply Z.mod_pos_bound. done. Qed.

(** The byte count of a call whose buffers fit an [int]. *)
Lemma byte_count_exact width height :
  0 < width → 0 < height → width * height * 3 ≤ INT_MAX →
  to_size_t (imul (imul width height) 3) = width * height * 3.
Proof.
  unfold INT_MAX. intros Hw Hh Hn.
  assert (0 < width * height) by lia.
  unfold imul. rewrite (to_int_id (width * height)).
  2:{ in_int. }
  rewrite to_int_id. 2:{ in_int. }
  apply to_size_t_id. change (2 ^ 64) with 18446744073709551616. lia.
Qed.

(** The subscript of a pixel of an image that fits an [int]. *)
Lemma subscript_exact width height x y c :
  0 ≤ x < width → 0 ≤ y < height → 0 ≤ c < 3 →
  width * height * 3 ≤ INT_MAX →
  subscript width x y c = 3 * (y * width + x) + c.
Proof.
  unfold INT_MAX. intros Hx Hy Hc Hn.
  assert (0 ≤ y * width) by (apply Z.mul_nonneg_nonneg; lia).
  assert (y * width ≤ (height - 1) * width)
    by (apply Z.mul_le_mono_nonneg_r; lia).
  assert (y * width + x < width * height) by lia.
  unfold subscript, iadd, imul.
  rewrite (to_int_id (y * width)) by in_int.
  rewrite (to_int_id (y * width + x)) by in_int.
  rewrite (to_int_id (3 * _)) by in_int.
  rewrite to_int_id by in_int.
  done.
Qed.

(** Whatever the image size, a subscript of a pixel is below
    [width * height * 3]: exactly computed when the image fits an [int], and
    at most [INT_MAX] once it does not. *)
Lemma subscript_below width height x y c :
  0 ≤ x < width → 0 ≤ y < height → 0 ≤ c < 3 →
  subscript width x y c < width * height * 3.
Proof.
  intros Hx Hy Hc.
  destruct (decide (width * height * 3 ≤ INT_MAX)) as [Hn|Hn].
  - rewrite (subscript_exact width height) by done.
    assert (y * width ≤ (height - 1) * width)
      by (apply Z.mul_le_mono_nonneg_r; lia).
    lia.
  - pose proof (to_int_is_int (imul 3 (iadd (imul y width) x) + c)) as Hi.
    unfold subscript, iadd at 1. unfold is_int in Hi. lia.
Qed.

(** *** The launch geometry *)

Lemma dimGrid_x width height :
  0 < width ≤ INT_MAX → dim3_x (dimGrid width height dimBlock) = (width + 15) / 16.
Proof.
  unfold INT_MAX. intros Hw. unfold dimGrid, dimBlock, udiv, usub, uadd. simpl.
  change (2 ^ 32) with 4294967296.
  rewrite (to_uint_id width) by in_uint.
  rewrite (to_uint_id (width + 16)) by in_uint.
  rewrite to_uint_id by in_uint.
  f_equal. lia.
Qed.

Lemma dimGrid_y width height :
  0 < height ≤ INT_MAX → dim3_y (dimGrid width height dimBlock) = (height + 15) / 16.
Proof.
  unfold INT_MAX. intros Hw. unfold dimGrid, dimBlock, udiv, usub, uadd. simpl.
  rewrite (to_uint_id height) by in_uint.
  rewrite (to_uint_id (height + 16)) by in_uint.
  rewrite to_uint_id by in_uint.
  f_equal. lia.
Qed.

(** [(n + 15) / 16] is the ceiling of [n / 16]. *)
Lemma ceil16 n : 16 * ((n + 15) / 16 - 1) < n ≤ 16 * ((n + 15) / 16).
Proof. Z.div_mod_to_equations. lia. Qed.

(** The coordinate line 6 (or 7) computes for block [b] and thread [t] of a
    grid of [(n + 15) / 16] blocks of 16 threads. *)
Lemma kernel_coord_exact n b t :
  0 < n ≤ INT_MAX → 0 ≤ b < (n + 15) / 16 → 0 ≤ t < 16 →
  to_int (uadd (umul b 16) t) = 16 * b + t ∧ 0 ≤ 16 * b + t < n + 15.
Proof.
  unfold INT_MAX. intros Hn Hb Ht.
  assert (16 * b + t < n + 15 ∧ 16 * b + t ≤ 2147483647) as [? ?].
  { Z.div_mod_to_equations. lia. }
  unfold uadd, umul.
  rewrite (to_uint_id (b * 16)) by in_uint.
  rewrite to_uint_id by in_uint.
  rewrite to_int_id by in_int.
  lia.
Qed.

Lemma elem_of_grid_threads gridDim blockDim t :
  t ∈ grid_threads gridDim blockDim ↔
  0 ≤ dim3_x (blockIdx t) < dim3_x gridDim ∧
  0 ≤ dim3_y (blockIdx t) < dim3_y gridDim ∧
  0 ≤ dim3_x (threadIdx t) < dim3_x blockDim ∧
  0 ≤ dim3_y (threadIdx t) < dim3_y blockDim.
Proof.
  unfold grid_threads. destruct t as [[bx by_] [tx ty]]. simpl.
  repeat setoid_rewrite list_elem_of_bind.
  setoid_rewrite list_elem_of_singleton.
  setoid_rewrite elem_of_seqZ.
  split.
  - intros (by' & (bx' & (ty' & (tx' & Heq & Htx) & Hty) & Hbx) & Hby).
    inversion Heq; subst. lia.
  - intros (Hbx & Hby & Htx & Hty).
    exists by_. split; [|lia]. exists bx. split; [|lia].
    exists ty. split; [|lia]. exists tx. split; [done|lia].
Qed.

(** ** Device threads: what any kernel run leaves untouched *)

Lemma mem_frame_refl out m : mem_frame out m m.
Proof. by split. Qed.

Lemma mem_frame_trans out m1 m2 m3 :
  mem_frame out m1 m2 → mem_frame out m2 m3 → mem_frame out m1 m3.
Proof.
  intros [Ha Hb] [Hc Hd]. split; intros h.
  - intros Hne. by rewrite Hc, Ha.
  - by rewrite Hd, Hb.
Qed.

Lemma mem_frame_write p i v m : mem_frame p m (write m p i v).
Proof.
  destruct p as [a|h|]; try apply mem_frame_refl. simpl. split; intros h'.
  - intros Hne. apply lookup_alter_ne. congruence.
  - rewrite lookup_alter. case_decide; [subst h'|done].
    destruct (m !! h) as [buf|]; simpl; [|done]. by rewrite length_insert.
Qed.

Lemma stays_within_refl out Q s : stays_within out Q s s.
Proof.
  split; [apply mem_frame_refl|]. exists []. by rewrite app_nil_r.
Qed.

Lemma stays_within_trans out Q s1 s2 s3 :
  stays_within out Q s1 s2 → stays_within out Q s2 s3 →
  stays_within out Q s1 s3.
Proof.
  intros [Hf (log & Hl & HQ)] [Hf' (log' & Hl' & HQ')]. split.
  - by eapply mem_frame_trans.
  - exists (log ++ log'). rewrite Hl', Hl, app_assoc. split; [done|].
    by apply Forall_app.
Qed.

Lemma stays_within_access out Q m log a :
  Q a → stays_within out Q (KState m log) (KState m (log ++ [a])).
Proof.
  intros Ha. split; [apply mem_frame_refl|]. exists [a]. split; [done|].
  by apply Forall_singleton.
Qed.

Lemma within_bind {A B} out Q (m : K A) (f : A → K B) :
  within out Q m → (∀ a, within out Q (f a)) → within out Q (m ≫= f).
Proof.
  intros Hm Hf. unfold mbind, K_bind.
  induction Hm; simpl; [apply Hf|by constructor..].
Qed.

(** The kernel only writes through [output], and every subscript it uses is
    one of the three of the pixel the guard let through. *)
Lemma processImageKernel_within input output width height bi bd ti
    (Q : access → Prop) :
  (kernel_x bi bd ti < width → kernel_y bi bd ti < height →
   ∀ c a, 0 ≤ c < 3 →
     access_index a = subscript width (kernel_x bi bd ti) (kernel_y bi bd ti) c →
     Q a) →
  within output Q (processImageKernel input output width height bi bd ti).
Proof.
  intros HQ. unfold processImageKernel.
  destruct (bool_decide (kernel_x bi bd ti < width)) eqn:Hx;
    [apply bool_decide_eq_true in Hx|apply within_ret].
  destruct (bool_decide (kernel_y bi bd ti < height)) eqn:Hy;
    [apply bool_decide_eq_true in Hy|apply within_ret].
  simpl.
  repeat (first
    [ apply within_ret
    | apply within_load; [intros ?| |intros ?]
    | apply within_store ]);
  (eapply (HQ Hx Hy); [|reflexivity]; lia).
Qed.

(** One memory operation of confined code. *)
Lemma step_within out Q code s :
  within out Q code →
  stays_within out Q s (step code s).2 ∧
  ∀ code', (step code s).1 = Some code' → within out Q code'.
Proof.
  intros Hw. destruct Hw as [a|p i k Hl Hf Hk|i v k Hs Hf Hk]; simpl.
  - split; [apply stays_within_refl|]. intros code' [= <-]. constructor.
  - destruct (resolve (k_mem s) p i) as [v|]; simpl.
    + split; [destruct s; by apply stays_within_access|].
      intros code' [= <-]. apply Hk.
    + split; [destruct s; by apply stays_within_access|]. done.
  - destruct (resolve (k_mem s) out i) as [v'|]; simpl.
    + split; [|by intros code' [= <-]]. split; simpl.
      * apply mem_frame_write.
      * exists [Store out i v]. split; [done|]. by apply Forall_singleton.
    + split; [destruct s; by apply stays_within_access|]. done.
Qed.

Lemma finish_within out Q code s :
  within out Q code → stays_within out Q s (finish code s).2.
Proof.
  intros Hw. revert s.
  induction Hw as [a|p i k Hl Hf Hk IH|i v k Hs Hf Hk IH]; intros s; simpl.
  - apply stays_within_refl.
  - destruct (resolve (k_mem s) p i) as [v|]; simpl.
    + eapply stays_within_trans; [|apply IH].
      destruct s; by apply stays_within_access.
    + destruct s; by apply stays_within_access.
  - destruct (resolve (k_mem s) out i) as [v'|]; simpl.
    + eapply stays_within_trans; [|apply IH]. split; simpl.
      * apply mem_frame_write.
      * exists [Store out i v]. split; [done|]. by apply Forall_singleton.
    + destruct s; by apply stays_within_access.
Qed.

Lemma run_schedule_within out Q schedule pool s :
  pool_within out Q pool →
  stays_within out Q s (run_schedule schedule pool s).2 ∧
  pool_within out Q (run_schedule schedule pool s).1.
Proof.
  revert pool s. induction schedule as [|j schedule IH]; intros pool s Hp.
  - split; [apply stays_within_refl|done].
  - simpl. destruct (pool !! j) as [[code|]|] eqn:Hj; try by apply IH.
    assert (within out Q code) as Hw.
    { eapply Forall_lookup_1 in Hp; [|exact Hj]. by apply Hp. }
    destruct (step_within out Q code s Hw) as [Hs Hc].
    destruct (step code s) as [code' s1]; simpl in *.
    destruct (IH (<[j := code']> pool) s1) as [Hs' Hp'].
    { apply Forall_insert; [done|]. intros c ->. by apply Hc. }
    split; [|done]. by eapply stays_within_trans.
Qed.

Lemma finish_all_within out Q pool s :
  pool_within out Q pool → stays_within out Q s (finish_all pool s).2.
Proof.
  revert s. induction pool as [|[code|] pool IH]; intros s Hp; simpl.
  - apply stays_within_refl.
  - apply Forall_cons in Hp as [Hc Hp].
    pose proof (finish_within out Q code s (Hc _ eq_refl)) as H1.
    destruct (finish code s) as [ok s1]; simpl in *.
    specialize (IH s1 Hp). destruct (finish_all pool s1) as [ok' s2].
    simpl in *. by eapply stays_within_trans.
  - apply Forall_cons in Hp as [_ Hp]. specialize (IH s Hp).
    by destruct (finish_all pool s) as [ok' s2].
Qed.

Lemma run_kernel_within out Q schedule (body : thread → K unit) ts s :
  (∀ t, t ∈ ts → within out Q (body t)) →
  stays_within out Q s (run_kernel schedule body ts s).2.
Proof.
  intros Hbody. unfold run_kernel.
  destruct (run_schedule_within out Q schedule
              ((λ t, Some (body t)) <$> ts) s) as [H1 H2].
  { apply Forall_fmap, Forall_forall. intros t Ht code [= <-]. by apply Hbody. }
  destruct (run_schedule _ _ s) as [pool s1]; simpl in *.
  eapply stays_within_trans; [exact H1|]. by apply finish_all_within.
Qed.

(** ** Device threads: a run on two well-sized buffers *)

(** Running a thread to the end amounts to making its steps one by one. *)
Lemma finish_by_steps (I : K unit → kstate → Prop) :
  (∀ code s, I code s →
     ∃ code', (step code s).1 = Some code' ∧ I code' (step code s).2) →
  ∀ code s, I code s → ∃ s', finish code s = (true, s') ∧ I (Ret tt) s'.
Proof.
  intros Hstep code.
  induction code as [[]|p i k IH|p i v k IH]; intros s HI.
  - by exists s.
  - destruct (Hstep _ _ HI) as (code' & Hc & HI'). simpl in *.
    destruct (resolve (k_mem s) p i) as [v|]; [|done].
    simpl in *. injection Hc as <-. by apply (IH v).
  - destruct (Hstep _ _ HI) as (code' & Hc & HI'). simpl in *.
    destruct (resolve (k_mem s) p i) as [v'|]; [|done].
    simpl in *. injection Hc as <-. by apply IH.
Qed.

Lemma store_indices_snoc log a :
  store_indices (log ++ [a])
  = store_indices log ++ match a with Store _ i _ => [i] | _ => [] end.
Proof. unfold store_indices. rewrite omap_app. by destruct a. Qed.

Lemma join_insert_cons (todos : list (list Z)) j i todo :
  todos !! j = Some (i :: todo) →
  mjoin todos ≡ₚ i :: mjoin (<[j := todo]> todos).
Proof.
  revert j. induction todos as [|x todos IH]; intros [|j] Hj; try done.
  - simpl in *. by injection Hj as ->.
  - simpl in *. rewrite (IH j Hj). by rewrite Permutation_middle.
Qed.

Section copy.
(** The device input buffer [hi] holds [bin]; the device output buffer [ho]
    is another allocation of the same size; [m0] is device memory when the
    kernel starts. *)
Context (hi ho : positive) (bin : list byte) (m0 : gmap positive (list byte)).
Hypothesis Hne : hi ≠ ho.

(** One memory operation of one thread of a copying kernel: it does not
    trap, and the kernel is still copying. *)
Lemma pool_copying_step all todos pool s j code :
  pool_copying hi ho bin m0 all todos pool s →
  pool !! j = Some (Some code) →
  ∃ code' todos',
    (step code s).1 = Some code' ∧
    pool_copying hi ho bin m0 all todos' (<[j := Some code']> pool)
                 (step code s).2.
Proof.
  intros (Hpool & Hin & (bo & Ho & Hlen & Hagree) & Hfr & Hlog & Hperm) Hj.
  destruct (Forall2_lookup_r _ _ _ _ _ Hpool Hj)
    as (todo & Htodo & code0 & [= <-] & Hcopies).
  destruct Hcopies as [|i todo k Hi [v Hv] Hk|i v todo k Hi Hv Hk].
  - (* the thread has returned *)
    exists (Ret tt), todos. split; [done|]. simpl.
    rewrite list_insert_id by done. by split_and!; [|done|exists bo|..].
  - (* a read of the input buffer *)
    exists (k v), todos. simpl. unfold in_bounds. rewrite Hin. simpl.
    rewrite decide_True by done. rewrite Hv. simpl. split; [done|].
    unfold pool_copying. cbn [k_mem k_log].
    split_and!; [|done|by exists bo|done|..].
    + rewrite <- (list_insert_id todos j (i :: todo)) by done.
      apply Forall2_insert; [done|]. exists (k v). split; [done|]. auto.
    + apply Forall_app. split; [done|]. apply Forall_singleton. by simpl.
    + by rewrite store_indices_snoc, app_nil_r.
  - (* a write to the output buffer *)
    exists k, (<[j := todo]> todos). simpl. unfold in_bounds. rewrite Ho. simpl.
    rewrite decide_True by done.
    destruct (lookup_lt_is_Some_2 bo (Z.to_nat i)) as [v' Hv'].
    { rewrite Hlen. by eapply lookup_lt_Some. }
    rewrite Hv'. simpl. split; [done|].
    pose proof (join_insert_cons todos j i todo Htodo) as Hjoin.
    unfold pool_copying. cbn [k_mem k_log].
    split_and!.
    + apply Forall2_insert; [done|]. by exists k.
    + by rewrite lookup_alter_ne.
    + exists (<[Z.to_nat i := v]> bo). split_and!.
      * by rewrite lookup_alter_eq, Ho.
      * by rewrite length_insert.
      * intros j' Hj'.
        destruct (decide (Z.to_nat i = Z.to_nat j')) as [Heq|Hneq].
        { right. rewrite <- Heq, list_lookup_insert_eq; [done|].
          by eapply lookup_lt_Some. }
        rewrite list_lookup_insert_ne by done.
        destruct (Hagree j' Hj') as [Hin'|Hok]; [|by right].
        left. rewrite Hjoin in Hin'.
        apply elem_of_cons in Hin' as [->|?]; [done|done].
    + intros h Hh. rewrite lookup_alter_ne by done. auto.
    + apply Forall_app. split; [done|]. apply Forall_singleton. by simpl.
    + rewrite store_indices_snoc, <- app_assoc. simpl.
      by rewrite <- Hperm, Hjoin.
Qed.

Lemma run_schedule_copying all schedule todos pool s :
  pool_copying hi ho bin m0 all todos pool s →
  ∃ todos',
    pool_copying hi ho bin m0 all todos' (run_schedule schedule pool s).1
                 (run_schedule schedule pool s).2.
Proof.
  revert todos pool s.
  induction schedule as [|j schedule IH]; intros todos pool s Hp.
  - by exists todos.
  - simpl. destruct (pool !! j) as [[code|]|] eqn:Hj; try by eapply IH.
    destruct (pool_copying_step all todos pool s j code Hp Hj)
      as (code' & todos' & Hc & Hp').
    destruct (step code s) as [r s1]. simpl in *. subst r. by eapply IH.
Qed.

Lemma finish_all_copying all todos pool s :
  pool_copying hi ho bin m0 all todos pool s →
  ∃ s', finish_all pool s = (true, s') ∧
        pool_copying hi ho bin m0 all [] [] s'.
Proof.
  revert todos s. induction pool as [|tp pool IH]; intros todos s Hp.
  - exists s. split; [done|].
    destruct Hp as (Hpool & ?). apply Forall2_nil_inv_r in Hpool as ->. done.
  - assert (∃ code, tp = Some code) as [code ->].
    { destruct Hp as (Hpool & _).
      apply Forall2_cons_inv_r in Hpool as (? & ? & (code & -> & _) & _ & _).
      by exists code. }
    destruct (finish_by_steps
                (λ c s, ∃ todos, pool_copying hi ho bin m0 all todos
                                              (Some c :: pool) s))
      with (code := code) (s := s) as (s1 & Hfin & todos1 & Hp1).
    { intros c s0 (todos0 & Hp0).
      destruct (pool_copying_step all todos0 (Some c :: pool) s0 0%nat c Hp0
                  eq_refl) as (c' & todos' & Hc & Hp').
      exists c'. split; [done|]. by exists todos'. }
    { by exists todos. }
    simpl. rewrite Hfin.
    destruct Hp1 as (Hpool & Hin & Hout & Hfr & Hlog & Hperm).
    apply Forall2_cons_inv_r in Hpool
      as (todo & todos' & (c & [= <-] & Hc) & Hpool & ->).
    inversion Hc; subst. simpl in *.
    destruct (IH todos' s1) as (s2 & Hfin2 & Hp2); [by split_and!|].
    rewrite Hfin2. by exists s2.
Qed.

Context (width height : Z).
Hypothesis Hwidth : 0 < width.
Hypothesis Hheight : 0 < height.
Hypothesis Hfits : width * height * 3 ≤ INT_MAX.
Hypothesis Hlen : Z.of_nat (length bin) = width * height * 3.

(** The code of a thread of the launch: it copies the three subscripts of
    its pixel, or nothing if the guard stops it. *)
Lemma copies_kernel bd t :
  0 ≤ kernel_x (blockIdx t) bd (threadIdx t) →
  0 ≤ kernel_y (blockIdx t) bd (threadIdx t) →
  copies hi ho bin (thread_stores width height bd t)
    (processImageKernel (Device hi) (Device ho) width height
                        (blockIdx t) bd (threadIdx t)).
Proof.
  intros Hx0 Hy0. unfold processImageKernel, thread_stores.
  set (x := kernel_x (blockIdx t) bd (threadIdx t)) in *.
  set (y := kernel_y (blockIdx t) bd (threadIdx t)) in *.
  destruct (bool_decide (x < width)) eqn:Hx;
    [apply bool_decide_eq_true in Hx|apply copies_ret].
  destruct (bool_decide (y < height)) eqn:Hy;
    [apply bool_decide_eq_true in Hy|apply copies_ret].
  simpl.
  rewrite !(subscript_exact width height) by lia.
  assert (y * width ≤ (height - 1) * width)
    by (apply Z.mul_le_mono_nonneg_r; lia).
  assert (0 ≤ y * width) by (apply Z.mul_nonneg_nonneg; lia).
  assert (∀ c, 0 ≤ c < 3 →
            is_Some (bin !! Z.to_nat (3 * (y * width + x) + c))) as Hsome.
  { intros c Hc. apply lookup_lt_is_Some_2. lia. }
  apply copies_load; [lia|apply Hsome; lia|intros v0 Hv0].
  apply copies_store; [lia|done|].
  apply copies_load; [lia|apply Hsome; lia|intros v1 Hv1].
  apply copies_store; [lia|done|].
  apply copies_load; [lia|apply Hsome; lia|intros v2 Hv2].
  apply copies_store; [lia|done|].
  constructor.
Qed.

(** The execution of the kernel of a launch whose threads together cover
    the subscripts [0 .. width * height * 3): under every schedule no thread
    traps, the output buffer ends up holding [bin], nothing else of device
    memory changes, and every subscript is written exactly once. *)
Lemma run_kernel_copy schedule bd ts bo :
  (∀ t, t ∈ ts → 0 ≤ kernel_x (blockIdx t) bd (threadIdx t) ∧
                 0 ≤ kernel_y (blockIdx t) bd (threadIdx t)) →
  ts ≫= thread_stores width height bd ≡ₚ seqZ 0 (width * height * 3) →
  m0 !! hi = Some bin → m0 !! ho = Some bo → length bo = length bin →
  ∃ s',
    run_kernel schedule
      (λ t, processImageKernel (Device hi) (Device ho) width height
                               (blockIdx t) bd (threadIdx t))
      ts (KState m0 []) = (true, s') ∧
    k_mem s' = <[ho := bin]> m0 ∧
    Forall (faithful hi ho bin) (k_log s') ∧
    store_indices (k_log s') ≡ₚ seqZ 0 (width * height * 3).
Proof.
  intros Hsane Hcover Hin Hout Hlo. unfold run_kernel.
  set (body := λ t, processImageKernel (Device hi) (Device ho) width height
                      (blockIdx t) bd (threadIdx t)).
  set (all := ts ≫= thread_stores width height bd) in *.
  assert (pool_copying hi ho bin m0 all (thread_stores width height bd <$> ts)
            ((λ t, Some (body t)) <$> ts) (KState m0 [])) as Hinit.
  { assert (mjoin (thread_stores width height bd <$> ts) = all) as Hall.
    { unfold all. clear. induction ts as [|t ts IH]; [done|].
      csimpl. by rewrite IH. }
    split_and!; simpl; [|done|exists bo; split_and!; [done..|]|done|done|].
    - apply Forall2_fmap, Forall_Forall2_diag, Forall_forall.
      intros t Ht. exists (body t). split; [done|].
      apply copies_kernel; by apply Hsane.
    - intros j Hj. left. by rewrite Hall.
    - by rewrite Hall. }
  destruct (run_schedule_copying all schedule _ _ _ Hinit) as (todos' & Hp).
  destruct (run_schedule schedule _ (KState m0 [])) as [pool s1].
  simpl in Hp.
  destruct (finish_all_copying all todos' pool s1 Hp) as (s' & Hfin & Hend).
  exists s'. split; [done|].
  destruct Hend as (_ & Hin' & (bo' & Ho' & Hlen' & Hagree) & Hfr & Hlog & Hperm).
  simpl in Hperm. rewrite app_nil_r in Hperm.
  split_and!; [|done|by rewrite Hperm].
  apply map_eq. intros h. destruct (decide (h = ho)) as [->|Hh].
  - rewrite lookup_insert_eq, Ho'. f_equal. apply list_eq. intros k.
    destruct (decide (k < length bin)%nat) as [Hk|Hk].
    + destruct (Hagree (Z.of_nat k)) as [Hnil|Hok].
      * rewrite Hcover. apply elem_of_seqZ. lia.
      * by apply elem_of_nil in Hnil.
      * by rewrite Nat2Z.id in Hok.
    + rewrite !lookup_ge_None_2 by lia. done.
  - rewrite lookup_insert_ne by done. auto.
Qed.

End copy.

(** ** The launch of [processImage] covers the image *)

Lemma grid_thread_coords width height t :
  0 < width ≤ INT_MAX → 0 < height ≤ INT_MAX →
  t ∈ grid_threads (dimGrid width height dimBlock) dimBlock →
  kernel_x (blockIdx t) dimBlock (threadIdx t)
    = 16 * dim3_x (blockIdx t) + dim3_x (threadIdx t) ∧
  kernel_y (blockIdx t) dimBlock (threadIdx t)
    = 16 * dim3_y (blockIdx t) + dim3_y (threadIdx t) ∧
  0 ≤ dim3_x (blockIdx t) ∧ 0 ≤ dim3_x (threadIdx t) < 16 ∧
  0 ≤ dim3_y (blockIdx t) ∧ 0 ≤ dim3_y (threadIdx t) < 16.
Proof.
  intros Hw Hh Ht. apply elem_of_grid_threads in Ht.
  rewrite dimGrid_x, dimGrid_y in Ht by done. simpl in Ht.
  destruct Ht as (Hbx & Hby & Htx & Hty).
  destruct (kernel_coord_exact width _ _ Hw Hbx Htx) as [Hx _].
  destruct (kernel_coord_exact height _ _ Hh Hby Hty) as [Hy _].
  unfold kernel_x, kernel_y. simpl. rewrite Hx, Hy. lia.
Qed.

Lemma thread_of_pixel_in_grid width height x y :
  0 < width ≤ INT_MAX → 0 < height ≤ INT_MAX →
  0 ≤ x < width → 0 ≤ y < height →
  thread_of_pixel x y ∈ grid_threads (dimGrid width height dimBlock) dimBlock.
Proof.
  intros Hw Hh Hx Hy. apply elem_of_grid_threads.
  rewrite dimGrid_x, dimGrid_y by done. simpl.
  Z.div_mod_to_equations. lia.
Qed.

Lemma thread_of_pixel_coords width height x y :
  0 < width ≤ INT_MAX → 0 < height ≤ INT_MAX →
  0 ≤ x < width → 0 ≤ y < height →
  kernel_x (blockIdx (thread_of_pixel x y)) dimBlock
           (threadIdx (thread_of_pixel x y)) = x ∧
  kernel_y (blockIdx (thread_of_pixel x y)) dimBlock
           (threadIdx (thread_of_pixel x y)) = y.
Proof.
  intros Hw Hh Hx Hy.
  destruct (grid_thread_coords width height (thread_of_pixel x y) Hw Hh)
    as (Hkx & Hky & _).
  { by apply thread_of_pixel_in_grid. }
  rewrite Hkx, Hky. simpl. Z.div_mod_to_equations. lia.
Qed.

(** Every subscript below [width * height * 3] belongs to the pixel of some
    thread of the launch. *)
Lemma launch_covers width height j :
  0 < width → 0 < height → width * height * 3 ≤ INT_MAX →
  0 ≤ j < width * height * 3 →
  threads_done width height dimBlock
    (grid_threads (dimGrid width height dimBlock) dimBlock) j.
Proof.
  unfold INT_MAX. intros Hw Hh Hfit Hj.
  assert (width ≤ width * height ∧ height ≤ width * height) as [? ?] by nia.
  set (p := j / 3). set (x := p mod width). set (y := p / width).
  assert (0 ≤ p < width * height) by (subst p; Z.div_mod_to_equations; lia).
  assert (0 ≤ x < width) by (subst x; apply Z.mod_pos_bound; lia).
  assert (0 ≤ y < height).
  { subst y. split; [apply Z.div_pos; lia|].
    apply Z.div_lt_upper_bound; lia. }
  assert (p = y * width + x).
  { subst x y. pose proof (Z.div_mod p width). lia. }
  destruct (thread_of_pixel_coords width height x y) as [Hkx Hky];
    try (unfold INT_MAX; lia).
  exists (thread_of_pixel x y). split.
  - apply thread_of_pixel_in_grid; unfold INT_MAX; lia.
  - unfold thread_done. rewrite Hkx, Hky. split_and!; [lia..|].
    exists (j mod 3). split; [apply Z.mod_pos_bound; lia|].
    pose proof (Z.div_mod j 3). subst p. lia.
Qed.

(** ** Each pixel has one thread *)

Lemma NoDup_grid_threads g b : NoDup (grid_threads g b).
Proof.
  unfold grid_threads.
  apply NoDup_bind; [| |apply NoDup_seqZ].
  { intros y1 y2 t _ _ H1 H2.
    repeat setoid_rewrite list_elem_of_bind in H1.
    repeat setoid_rewrite list_elem_of_bind in H2.
    setoid_rewrite list_elem_of_singleton in H1.
    setoid_rewrite list_elem_of_singleton in H2.
    destruct H1 as (? & (? & (? & E1 & _) & _) & _).
    destruct H2 as (? & (? & (? & E2 & _) & _) & _). congruence. }
  intros by_ _. apply NoDup_bind; [| |apply NoDup_seqZ].
  { intros x1 x2 t _ _ H1 H2.
    repeat setoid_rewrite list_elem_of_bind in H1.
    repeat setoid_rewrite list_elem_of_bind in H2.
    setoid_rewrite list_elem_of_singleton in H1.
    setoid_rewrite list_elem_of_singleton in H2.
    destruct H1 as (? & (? & E1 & _) & _).
    destruct H2 as (? & (? & E2 & _) & _). congruence. }
  intros bx _. apply NoDup_bind; [| |apply NoDup_seqZ].
  { intros y1 y2 t _ _ H1 H2.
    repeat setoid_rewrite list_elem_of_bind in H1.
    repeat setoid_rewrite list_elem_of_bind in H2.
    setoid_rewrite list_elem_of_singleton in H1.
    setoid_rewrite list_elem_of_singleton in H2.
    destruct H1 as (? & E1 & _). destruct H2 as (? & E2 & _). congruence. }
  intros ty _. apply NoDup_bind; [| |apply NoDup_seqZ].
  { intros x1 x2 t _ _ H1 H2.
    apply list_elem_of_singleton in H1, H2. congruence. }
  intros tx _. apply NoDup_singleton.
Qed.

Lemma filter_none {A} (P : A → Prop) `{∀ x, Decision (P x)} (l : list A) :
  (∀ y, y ∈ l → ¬ P y) → filter P l = [].
Proof.
  induction l as [|z l IH]; intros Hno; [done|].
  rewrite filter_cons_False by (apply Hno; left).
  apply IH. intros y Hy. apply Hno. by right.
Qed.

Lemma filter_unique {A} (P : A → Prop) `{∀ x, Decision (P x)} (l : list A) x :
  NoDup l → x ∈ l → P x → (∀ y, y ∈ l → P y → y = x) → filter P l = [x].
Proof.
  induction 1 as [|z l Hz Hnd IH]; intros Hin HP Huniq.
  - by apply not_elem_of_nil in Hin.
  - apply elem_of_cons in Hin as [<-|Hin].
    + rewrite filter_cons_True by done. f_equal.
      apply filter_none. intros y Hy HPy.
      apply Hz. rewrite <- (Huniq y); [done|by right|done].
    + rewrite filter_cons_False.
      * apply IH; try done. intros y Hy. apply Huniq. by right.
      * intros HPz. apply Hz. rewrite (Huniq z); [done|by left|done].
Qed.

(** ** The writes of a kernel execution *)

Lemma elem_of_thread_stores width height t j :
  0 < width → 0 < height → width * height * 3 ≤ INT_MAX →
  t ∈ grid_threads (dimGrid width height dimBlock) dimBlock →
  j ∈ thread_stores width height dimBlock t ↔
  thread_done width height dimBlock t j.
Proof.
  intros Hw Hh Hfit Ht.
  assert (width ≤ INT_MAX ∧ height ≤ INT_MAX) as [? ?]
    by (unfold INT_MAX in *; nia).
  destruct (grid_thread_coords width height t) as (Ex & Ey & ? & ? & ? & ?);
    [lia..|done|].
  unfold thread_stores, thread_done.
  set (x := kernel_x (blockIdx t) dimBlock (threadIdx t)) in *.
  set (y := kernel_y (blockIdx t) dimBlock (threadIdx t)) in *.
  destruct (bool_decide (x < width)) eqn:Hx;
    [apply bool_decide_eq_true in Hx|apply bool_decide_eq_false in Hx].
  2:{ simpl. rewrite elem_of_nil. split; [done|]. intros (? & _). lia. }
  destruct (bool_decide (y < height)) eqn:Hy;
    [apply bool_decide_eq_true in Hy|apply bool_decide_eq_false in Hy].
  2:{ simpl. rewrite elem_of_nil. split; [done|]. intros (_ & ? & _). lia. }
  simpl. rewrite !(subscript_exact width height) by lia.
  rewrite !elem_of_cons, elem_of_nil. split.
  - intros [->|[->|[->|[]]]]; (split_and!; [done..|]);
      [exists 0|exists 1|exists 2]; (split; [lia|done]).
  - intros (_ & _ & c & Hc & ->).
    assert (c = 0 ∨ c = 1 ∨ c = 2) as [->|[->| ->]] by lia; tauto.
Qed.

(** Over the whole launch, every subscript below [width * height * 3]
    belongs to exactly one thread, once. *)
Lemma launch_stores_once width height :
  0 < width → 0 < height → width * height * 3 ≤ INT_MAX →
  grid_threads (dimGrid width height dimBlock) dimBlock
    ≫= thread_stores width height dimBlock
  ≡ₚ seqZ 0 (width * height * 3).
Proof.
  intros Hw Hh Hfit.
  assert (width ≤ INT_MAX ∧ height ≤ INT_MAX) as [? ?]
    by (unfold INT_MAX in *; nia).
  apply NoDup_Permutation.
  - apply NoDup_bind; [| |apply NoDup_grid_threads].
    + intros t1 t2 j Ht1 Ht2 Hj1 Hj2.
      apply elem_of_thread_stores in Hj1, Hj2; try done.
      destruct Hj1 as (Hx1 & Hy1 & c1 & Hc1 & ->).
      destruct Hj2 as (Hx2 & Hy2 & c2 & Hc2 & Heq).
      destruct (grid_thread_coords width height t1)
        as (Ex1 & Ey1 & ? & ? & ? & ?); [lia..|done|].
      destruct (grid_thread_coords width height t2)
        as (Ex2 & Ey2 & ? & ? & ? & ?); [lia..|done|].
      assert (0 ≤ kernel_x (blockIdx t1) dimBlock (threadIdx t1) ∧
              0 ≤ kernel_x (blockIdx t2) dimBlock (threadIdx t2)) as [? ?]
        by lia.
      assert (kernel_y (blockIdx t1) dimBlock (threadIdx t1) * width
              + kernel_x (blockIdx t1) dimBlock (threadIdx t1)
              = kernel_y (blockIdx t2) dimBlock (threadIdx t2) * width
                + kernel_x (blockIdx t2) dimBlock (threadIdx t2)) as Hp by lia.
      destruct (Z.div_mod_unique width
                  (kernel_y (blockIdx t1) dimBlock (threadIdx t1))
                  (kernel_y (blockIdx t2) dimBlock (threadIdx t2))
                  (kernel_x (blockIdx t1) dimBlock (threadIdx t1))
                  (kernel_x (blockIdx t2) dimBlock (threadIdx t2)))
        as [HY HX]; [lia|lia|lia|].
      rewrite Ex1, Ex2 in HX. rewrite Ey1, Ey2 in HY.
      destruct t1 as [[bx1 by1] [tx1 ty1]], t2 as [[bx2 by2] [tx2 ty2]].
      simpl in *. repeat f_equal; lia.
    + intros t Ht. unfold thread_stores.
      destruct (bool_decide _ && bool_decide _) eqn:Hg; [|constructor].
      apply andb_true_iff in Hg as [Hx Hy].
      apply bool_decide_eq_true in Hx, Hy.
      destruct (grid_thread_coords width height t)
        as (Ex & Ey & ? & ? & ? & ?); [lia..|done|].
      rewrite !(subscript_exact width height) by lia.
      repeat (apply NoDup_cons; split;
              [rewrite ?elem_of_cons, elem_of_nil; lia|]).
      constructor.
  - apply NoDup_seqZ.
  - intros j. rewrite list_elem_of_bind, elem_of_seqZ. split.
    + intros (t & Hj & Ht). apply elem_of_thread_stores in Hj; try done.
      destruct Hj as (Hx & Hy & c & Hc & ->).
      destruct (grid_thread_coords width height t)
        as (Ex & Ey & ? & ? & ? & ?); [lia..|done|].
      rewrite Ex, Ey in *.
      assert ((16 * dim3_y (blockIdx t) + dim3_y (threadIdx t)) * width
              ≤ (height - 1) * width)
        by (apply Z.mul_le_mono_nonneg_r; lia).
      assert (0 ≤ (16 * dim3_y (blockIdx t) + dim3_y (threadIdx t)) * width)
        by (apply Z.mul_nonneg_nonneg; lia).
      lia.
    + intros Hj.
      destruct (launch_covers width height j)
        as (t & Ht & Hdone); try done; try lia.
      exists t. split; [|done]. by apply elem_of_thread_stores.
Qed.

(** ** Runtime calls on an explicit world *)

Lemma blit_full (dst src : list byte) count :
  count = Z.of_nat (length src) → length dst = length src →
  blit dst src count = src.
Proof.
  intros -> Hlen. unfold blit. rewrite Nat2Z.id.
  rewrite take_ge, drop_ge by lia. apply app_nil_r.
Qed.

Lemma length_blit (dst src : list byte) count :
  count ≤ Z.of_nat (length dst) → count ≤ Z.of_nat (length src) →
  length (blit dst src count) = length dst.
Proof.
  intros Hd Hs. unfold blit. rewrite length_app, length_take, length_drop. lia.
Qed.

Lemma length_fresh_buffer (junk : nat → byte) size :
  0 ≤ size → Z.of_nat (length (junk <$> seq 0 (Z.to_nat size))) = size.
Proof. intros Hs. rewrite length_fmap, length_seq. lia. Qed.

Lemma drain_idle hm dm fr junk sched tr :
  drain (MkWorld hm dm fr junk sched [] tr) = MkWorld hm dm fr junk sched [] tr.
Proof. reflexivity. Qed.

Lemma drain_one hm dm fr junk sched tr l :
  drain (MkWorld hm dm fr junk sched [l] tr)
  = set_dev_queue [] (run_launch (MkWorld hm dm fr junk sched [l] tr) l).
Proof. reflexivity. Qed.

Lemma cudaMalloc_ok p size hm dm fr junk sched q tr :
  size ≤ fr →
  cudaMalloc p size (MkWorld hm dm fr junk sched q tr)
  = ((cudaSuccess, Device (fresh (dom dm))),
     MkWorld hm (<[fresh (dom dm) := junk <$> seq 0 (Z.to_nat size)]> dm)
             (fr - size) junk sched q
             (tr ++ [EvMalloc size cudaSuccess (Device (fresh (dom dm)))])).
Proof. intros Hs. unfold cudaMalloc. simpl. by rewrite decide_True. Qed.

Lemma cudaMalloc_fail p size hm dm fr junk sched q tr :
  fr < size →
  cudaMalloc p size (MkWorld hm dm fr junk sched q tr)
  = ((cudaErrorMemoryAllocation, p),
     MkWorld hm dm fr junk sched q
             (tr ++ [EvMalloc size cudaErrorMemoryAllocation p])).
Proof. intros Hs. unfold cudaMalloc. simpl. by rewrite decide_False by lia. Qed.

Lemma cudaMemcpy_h2d_ok h a count d s hm dm fr junk sched tr :
  dm !! h = Some d → hm !! a = Some s →
  count ≤ Z.of_nat (length d) → count ≤ Z.of_nat (length s) →
  cudaMemcpy (Device h) (Host a) count cudaMemcpyHostToDevice
             (MkWorld hm dm fr junk sched [] tr)
  = (cudaSuccess,
     MkWorld hm (<[h := blit d s count]> dm) fr junk sched []
       (tr ++ [EvMemcpy (Device h) (Host a) count cudaMemcpyHostToDevice
                        cudaSuccess])).
Proof.
  intros Hd Hs Hcd Hcs. unfold cudaMemcpy. rewrite drain_idle. simpl.
  rewrite Hd, Hs. by rewrite decide_True.
Qed.

Lemma cudaMemcpy_d2h_ok a h count d s hm dm fr junk sched tr :
  hm !! a = Some d → dm !! h = Some s →
  count ≤ Z.of_nat (length d) → count ≤ Z.of_nat (length s) →
  cudaMemcpy (Host a) (Device h) count cudaMemcpyDeviceToHost
             (MkWorld hm dm fr junk sched [] tr)
  = (cudaSuccess,
     MkWorld (<[a := blit d s count]> hm) dm fr junk sched []
       (tr ++ [EvMemcpy (Host a) (Device h) count cudaMemcpyDeviceToHost
                        cudaSuccess])).
Proof.
  intros Hd Hs Hcd Hcs. unfold cudaMemcpy. rewrite drain_idle. simpl.
  rewrite Hd, Hs. by rewrite decide_True.
Qed.

(** A blocking call first lets the device finish. *)
Lemma drain_drain w : drain (drain w) = drain w.
Proof. reflexivity. Qed.

Lemma cudaMemcpy_drain dst src count kind w :
  cudaMemcpy dst src count kind w = cudaMemcpy dst src count kind (drain w).
Proof. unfold cudaMemcpy. by rewrite drain_drain. Qed.

Lemma cudaFree_drain p w : cudaFree p w = cudaFree p (drain w).
Proof. unfold cudaFree. by rewrite drain_drain. Qed.

Lemma cudaLaunchKernel_ok g b kernel hm dm fr junk sched q tr :
  0 < dim3_x g → 0 < dim3_y g → 0 < dim3_x b → 0 < dim3_y b →
  cudaLaunchKernel g b kernel (MkWorld hm dm fr junk sched q tr)
  = (cudaSuccess,
     MkWorld hm dm fr junk sched (q ++ [Launch g b kernel])
             (tr ++ [EvLaunch g b cudaSuccess])).
Proof.
  intros. unfold cudaLaunchKernel. simpl. by rewrite decide_True.
Qed.

Lemma cudaFree_ok h buf hm dm fr junk sched tr :
  dm !! h = Some buf →
  cudaFree (Device h) (MkWorld hm dm fr junk sched [] tr)
  = (cudaSuccess,
     MkWorld hm (delete h dm) (fr + Z.of_nat (length buf)) junk sched []
             (tr ++ [EvFree (Device h) cudaSuccess])).
Proof. intros Hb. unfold cudaFree. rewrite drain_idle. simpl. by rewrite Hb. Qed.

(** The kernel of [processImage] on two live buffers of the right size:
    the output buffer ends up holding the input, however the scheduler
    interleaves the threads. *)
Lemma run_launch_copy hi ho bin bo width height hm dm fr junk sched q tr :
  hi ≠ ho → 0 < width → 0 < height → width * height * 3 ≤ INT_MAX →
  Z.of_nat (length bin) = width * height * 3 →
  dm !! hi = Some bin → dm !! ho = Some bo → length bo = length bin →
  ∃ log,
    Forall (faithful hi ho bin) log ∧
    store_indices log ≡ₚ seqZ 0 (width * height * 3) ∧
    run_launch (MkWorld hm dm fr junk sched q tr)
      (Launch (dimGrid width height dimBlock) dimBlock
              (processImageKernel (Device hi) (Device ho) width height))
    = MkWorld hm (<[ho := bin]> dm) fr junk sched q
              (tr ++ [EvKernel log true]).
Proof.
  intros Hne Hw Hh Hfit Hlen Hin Hout Hlo.
  assert (width ≤ INT_MAX ∧ height ≤ INT_MAX) as [? ?] by (unfold INT_MAX in *; nia).
  set (ts := grid_threads (dimGrid width height dimBlock) dimBlock).
  destruct (run_kernel_copy hi ho bin dm Hne width height Hw Hh Hfit Hlen
              (sched ts) dimBlock ts bo)
    as (s' & Hrun & Hmem & Hlog & Hperm); try done.
  { intros t Ht.
    destruct (grid_thread_coords width height t) as (-> & -> & ?); [lia..|done|].
    lia. }
  { by apply launch_stores_once. }
  exists (k_log s'). split; [done|]. split; [done|].
  unfold run_launch. simpl. fold ts. rewrite Hrun. unfold emit, set_dev_mem.
  simpl. by rewrite Hmem.
Qed.

(** ** A whole call on well-formed arguments *)

Lemma fresh_lookup_None (dm : gmap positive (list byte)) :
  dm !! fresh (dom dm) = None.
Proof. apply not_elem_of_dom, is_fresh. Qed.

(** The run of [processImage] on a [width] x [height] image that fits an
    [int], between two host buffers of [width * height * 3] bytes, on an idle
    device with room for the two device buffers: the final world and the
    whole trace. *)
Lemma processImage_valid_run a o width height bin bout hm dm fr junk sched tr :
  0 < width → 0 < height → width * height * 3 ≤ INT_MAX →
  hm !! a = Some bin → Z.of_nat (length bin) = width * height * 3 →
  hm !! o = Some bout → Z.of_nat (length bout) = width * height * 3 →
  2 * (width * height * 3) ≤ fr →
  ∃ h1 h2 log,
    h1 ≠ h2 ∧ Forall (faithful h1 h2 bin) log ∧
    store_indices log ≡ₚ seqZ 0 (width * height * 3) ∧
    processImage (Host a) (Host o) width height
                 (MkWorld hm dm fr junk sched [] tr)
    = (tt,
       MkWorld (<[o := bin]> hm) dm fr junk sched []
         (tr ++
          [ EvMalloc (width * height * 3) cudaSuccess (Device h1);
            EvMalloc (width * height * 3) cudaSuccess (Device h2);
            EvMemcpy (Device h1) (Host a) (width * height * 3)
                     cudaMemcpyHostToDevice cudaSuccess;
            EvLaunch (dimGrid width height dimBlock) dimBlock cudaSuccess;
            EvKernel log true;
            EvMemcpy (Host o) (Device h2) (width * height * 3)
                     cudaMemcpyDeviceToHost cudaSuccess;
            EvFree (Device h1) cudaSuccess;
            EvFree (Device h2) cudaSuccess ])).
Proof.
  intros Hw Hh Hfit Ha Hla Ho Hlo Hfree.
  assert (width ≤ INT_MAX ∧ height ≤ INT_MAX) as [? ?]
    by (unfold INT_MAX in *; nia).
  unfold processImage. rewrite !byte_count_exact by done.
  set (n := width * height * 3) in *. assert (0 ≤ n) by lia.
  unfold mbind, HostM_bind, mret, HostM_ret.
  (* the two allocations *)
  rewrite cudaMalloc_ok by lia. cbv beta iota zeta.
  set (h1 := fresh (dom dm)).
  set (b1 := junk <$> seq 0 (Z.to_nat n)).
  rewrite cudaMalloc_ok by lia. cbv beta iota zeta. fold b1.
  set (h2 := fresh (dom (<[h1 := b1]> dm))).
  assert (dm !! h1 = None) as Hh1 by apply fresh_lookup_None.
  assert (<[h1 := b1]> dm !! h2 = None) as Hh2 by apply fresh_lookup_None.
  assert (h1 ≠ h2) as Hne.
  { intros Heq. rewrite <- Heq, lookup_insert_eq in Hh2. done. }
  rewrite lookup_insert_ne in Hh2 by done.
  assert (Z.of_nat (length b1) = n) as Hlb1
    by (apply length_fresh_buffer; lia).
  (* copy in *)
  rewrite (cudaMemcpy_h2d_ok h1 a n b1 bin); try lia.
  2:{ by rewrite lookup_insert_ne, lookup_insert_eq. }
  2:{ done. }
  cbv beta iota zeta.
  rewrite (blit_full b1 bin) by lia.
  (* launch *)
  rewrite cudaLaunchKernel_ok; simpl app.
  2,3: rewrite ?dimGrid_x, ?dimGrid_y by lia; Z.div_mod_to_equations; lia.
  2,3: done.
  cbv beta iota zeta.
  (* the device runs the kernel, then the copy out *)
  rewrite cudaMemcpy_drain, drain_one.
  destruct (run_launch_copy h1 h2 bin b1 width height hm
              (<[h1 := bin]> (<[h2 := b1]> (<[h1 := b1]> dm)))
              (fr - n - n) junk sched
              [Launch (dimGrid width height dimBlock) dimBlock
                      (processImageKernel (Device h1) (Device h2) width height)]
              ((((tr ++ [EvMalloc n cudaSuccess (Device h1)])
                  ++ [EvMalloc n cudaSuccess (Device h2)])
                 ++ [EvMemcpy (Device h1) (Host a) n cudaMemcpyHostToDevice
                              cudaSuccess])
                ++ [EvLaunch (dimGrid width height dimBlock) dimBlock
                             cudaSuccess]))
    as (log & Hlog & Hstores & Hrun); try done.
  { by rewrite lookup_insert_eq. }
  { by rewrite lookup_insert_ne, lookup_insert_eq. }
  { lia. }
  rewrite Hrun. unfold set_dev_queue. cbn [host_mem dev_mem dev_free dev_junk
    dev_sched dev_queue trace].
  rewrite (cudaMemcpy_d2h_ok o h2 n bout bin); try lia.
  2:{ done. }
  2:{ by rewrite lookup_insert_eq. }
  cbv beta iota zeta.
  rewrite (blit_full bout bin) by lia.
  (* release *)
  rewrite (cudaFree_ok h1 bin).
  2:{ by rewrite lookup_insert_ne, lookup_insert_eq. }
  cbv beta iota zeta.
  rewrite (cudaFree_ok h2 bin).
  2:{ by rewrite lookup_delete_ne, lookup_insert_eq. }
  exists h1, h2, log. split; [done|]. split; [done|]. split; [done|].
  f_equal. f_equal.
  - apply map_eq. intros h.
    destruct (decide (h = h2)) as [->|?]; [by rewrite lookup_delete_eq|].
    rewrite lookup_delete_ne by done.
    destruct (decide (h = h1)) as [->|?]; [by rewrite lookup_delete_eq|].
    rewrite lookup_delete_ne by done.
    by rewrite !lookup_insert_ne.
  - lia.
  - rewrite <- !app_assoc. reflexivity.
Qed.

(** ** The trace of a call, in any world *)

Lemma trace_run_launch w l :
  ∃ log ok, trace (run_launch w l) = trace w ++ [EvKernel log ok].
Proof.
  unfold run_launch.
  destruct (run_kernel _ _ _ _) as [ok s]. by exists (k_log s), ok.
Qed.

Lemma trace_foldl_run_launch q w :
  ∃ kevs, trace (foldl run_launch w q) = trace w ++ kevs ∧ kernel_events kevs.
Proof.
  revert w. induction q as [|l q IH]; intros w; simpl.
  - exists []. split; [by rewrite app_nil_r|constructor].
  - destruct (IH (run_launch w l)) as (kevs & Htr & Hk).
    destruct (trace_run_launch w l) as (log & ok & Hl).
    exists (EvKernel log ok :: kevs). split.
    + rewrite Htr, Hl, <- app_assoc. done.
    + constructor; [by eexists _, _|done].
Qed.

Lemma trace_drain w :
  ∃ kevs, trace (drain w) = trace w ++ kevs ∧ kernel_events kevs.
Proof. unfold drain. simpl. apply trace_foldl_run_launch. Qed.

Lemma cudaMalloc_trace p size w :
  ∃ r p' w', cudaMalloc p size w = ((r, p'), w') ∧
             trace w' = trace w ++ [EvMalloc size r p'].
Proof.
  unfold cudaMalloc. case_decide; eexists _, _, _; split; reflexivity.
Qed.

Lemma cudaMemcpy_trace dst src count kind w :
  ∃ r w' kevs, cudaMemcpy dst src count kind w = (r, w') ∧
               kernel_events kevs ∧
               trace w' = trace w ++ kevs ++ [EvMemcpy dst src count kind r].
Proof.
  destruct (trace_drain w) as (kevs & Htr & Hk).
  unfold cudaMemcpy. cbv zeta. revert Htr. generalize (drain w). intros wd Htr.
  destruct kind, dst, src; simpl;
    repeat case_match;
    eexists _, _, kevs; (split; [reflexivity|]); (split; [done|]);
    simpl; rewrite Htr, <- app_assoc; reflexivity.
Qed.

Lemma cudaLaunchKernel_trace g b kernel w :
  ∃ r w', cudaLaunchKernel g b kernel w = (r, w') ∧
          trace w' = trace w ++ [EvLaunch g b r].
Proof.
  unfold cudaLaunchKernel. case_decide; eexists _, _; split; reflexivity.
Qed.

Lemma cudaFree_trace p w :
  ∃ r w' kevs, cudaFree p w = (r, w') ∧ kernel_events kevs ∧
               trace w' = trace w ++ kevs ++ [EvFree p r].
Proof.
  destruct (trace_drain w) as (kevs & Htr & Hk).
  unfold cudaFree. cbv zeta. revert Htr. generalize (drain w). intros wd Htr.
  destruct p; simpl; repeat case_match;
    eexists _, _, kevs; (split; [reflexivity|]); (split; [done|]);
    simpl; rewrite Htr, <- app_assoc; reflexivity.
Qed.

(** The seven runtime calls of [processImage] always happen, in program
    order and with the same byte count, whatever each of them returns;
    kernel executions may only sit in between. *)
Lemma processImage_trace input output width height w :
  ∃ r1 p1 r2 p2 k1 r3 r4 k2 r5 k3 r6 k4 r7,
    kernel_events k1 ∧ kernel_events k2 ∧ kernel_events k3 ∧ kernel_events k4 ∧
    trace (exec (processImage input output width height) w)
    = trace w
      ++ [ EvMalloc (to_size_t (imul (imul width height) 3)) r1 p1;
           EvMalloc (to_size_t (imul (imul width height) 3)) r2 p2 ]
      ++ k1
      ++ [ EvMemcpy p1 input (to_size_t (imul (imul width height) 3))
                    cudaMemcpyHostToDevice r3;
           EvLaunch (dimGrid width height dimBlock) dimBlock r4 ]
      ++ k2
      ++ [ EvMemcpy output p2 (to_size_t (imul (imul width height) 3))
                    cudaMemcpyDeviceToHost r5 ]
      ++ k3 ++ [ EvFree p1 r6 ]
      ++ k4 ++ [ EvFree p2 r7 ].
Proof.
  unfold exec, processImage, mbind, HostM_bind, mret, HostM_ret.
  set (n := to_size_t (imul (imul width height) 3)).
  destruct (cudaMalloc_trace Wild n w) as (r1 & p1 & w1 & E1 & T1).
  rewrite E1. cbv beta iota zeta.
  destruct (cudaMalloc_trace Wild n w1) as (r2 & p2 & w2 & E2 & T2).
  rewrite E2. cbv beta iota zeta.
  destruct (cudaMemcpy_trace p1 input n cudaMemcpyHostToDevice w2)
    as (r3 & w3 & k1 & E3 & K1 & T3).
  rewrite E3. cbv beta iota zeta.
  destruct (cudaLaunchKernel_trace (dimGrid width height dimBlock) dimBlock
              (processImageKernel p1 p2 width height) w3)
    as (r4 & w4 & E4 & T4).
  rewrite E4. cbv beta iota zeta.
  destruct (cudaMemcpy_trace output p2 n cudaMemcpyDeviceToHost w4)
    as (r5 & w5 & k2 & E5 & K2 & T5).
  rewrite E5. cbv beta iota zeta.
  destruct (cudaFree_trace p1 w5) as (r6 & w6 & k3 & E6 & K3 & T6).
  rewrite E6. cbv beta iota zeta.
  destruct (cudaFree_trace p2 w6) as (r7 & w7 & k4 & E7 & K4 & T7).
  rewrite E7. simpl.
  exists r1, p1, r2, p2, k1, r3, r4, k2, r5, k3, r6, k4, r7.
  split_and!; try done.
  rewrite T7, T6, T5, T4, T3, T2, T1.
  repeat rewrite <- app_assoc. reflexivity.
Qed.

Lemma calls_kernel_events kevs : kernel_events kevs → calls kevs = [].
Proof.
  induction 1 as [|e kevs (log & ok & ->) _ IH]; [done|]. exact IH.
Qed.

Lemma byte_counts_kernel_events kevs :
  kernel_events kevs → byte_counts kevs = [].
Proof.
  induction 1 as [|e kevs (log & ok & ->) _ IH]; [done|]. exact IH.
Qed.

Lemma processImage_calls input output width height w :
  calls (trace (exec (processImage input output width height) w))
  = calls (trace w)
    ++ [ CallMalloc (to_size_t (imul (imul width height) 3));
         CallMalloc (to_size_t (imul (imul width height) 3));
         CallMemcpy (to_size_t (imul (imul width height) 3))
                    cudaMemcpyHostToDevice;
         CallLaunch (dimGrid width height dimBlock) dimBlock;
         CallMemcpy (to_size_t (imul (imul width height) 3))
                    cudaMemcpyDeviceToHost;
         CallFree; CallFree ].
Proof.
  destruct (processImage_trace input output width height w)
    as (r1 & p1 & r2 & p2 & k1 & r3 & r4 & k2 & r5 & k3 & r6 & k4 & r7
        & K1 & K2 & K3 & K4 & ->).
  unfold calls. repeat rewrite omap_app. fold (calls k1) (calls k2) (calls k3)
    (calls k4).
  rewrite (calls_kernel_events k1), (calls_kernel_events k2),
    (calls_kernel_events k3), (calls_kernel_events k4) by done.
  reflexivity.
Qed.

(** ** A call on an idle device, whatever its arguments *)

Lemma cudaMemcpy_idle dst src count kind hm dm fr junk sched tr :
  ∃ r hm' dm',
    cudaMemcpy dst src count kind (MkWorld hm dm fr junk sched [] tr)
    = (r, MkWorld hm' dm' fr junk sched []
                  (tr ++ [EvMemcpy dst src count kind r])) ∧
    mem_frame dst dm dm' ∧
    (kind = cudaMemcpyDeviceToHost → dm' = dm) ∧
    (kind = cudaMemcpyHostToDevice → hm' = hm) ∧
    (∀ a, dst ≠ Host a → hm' !! a = hm !! a).
Proof.
  unfold cudaMemcpy. rewrite drain_idle. cbv zeta.
  destruct kind, dst as [a|h|], src as [a'|h'|]; simpl;
    try (eexists _, hm, dm; split; [reflexivity|];
         split_and!; auto using mem_frame_refl; fail).
  - (* host to device *)
    destruct (dm !! h) as [d|] eqn:Hd, (hm !! a') as [s|] eqn:Hs;
      try (eexists _, hm, dm; split; [reflexivity|];
           split_and!; auto using mem_frame_refl; fail).
    case_decide as Hc;
      [|eexists _, hm, dm; split; [reflexivity|];
        split_and!; auto using mem_frame_refl].
    eexists _, hm, _. split; [reflexivity|]. simpl.
    split_and!; auto; [|done].
    split; intros h0.
    + intros Hne. apply lookup_insert_ne. congruence.
    + destruct (decide (h = h0)) as [<-|?].
      * rewrite lookup_insert_eq, Hd. simpl. f_equal. apply length_blit; lia.
      * by rewrite lookup_insert_ne.
  - (* device to host *)
    destruct (hm !! a) as [d|] eqn:Hd, (dm !! h') as [s|] eqn:Hs;
      try (eexists _, hm, dm; split; [reflexivity|];
           split_and!; auto using mem_frame_refl; fail).
    case_decide as Hc;
      [|eexists _, hm, dm; split; [reflexivity|];
        split_and!; auto using mem_frame_refl].
    eexists _, _, dm. split; [reflexivity|]. simpl.
    split_and!; auto using mem_frame_refl; [done|].
    intros a0 Hne. apply lookup_insert_ne. congruence.
Qed.

(** The launch of [processImage] followed by the wait of the next blocking
    call: whether the launch was accepted or not, and whether threads trap
    or not, the device ends idle, having written inside [output] only. *)
Lemma launch_drain_idle input output width height g b hm dm fr junk sched tr :
  ∃ r w4 dm' kevs,
    cudaLaunchKernel g b (processImageKernel input output width height)
                     (MkWorld hm dm fr junk sched [] tr) = (r, w4) ∧
    drain w4 = MkWorld hm dm' fr junk sched []
                       ((tr ++ [EvLaunch g b r]) ++ kevs) ∧
    mem_frame output dm dm' ∧ launch_outcome r kevs.
Proof.
  unfold cudaLaunchKernel. case_decide as Hcfg; simpl.
  - eexists _, _.
    destruct (run_kernel (sched (grid_threads g b))
      (λ t, processImageKernel input output width height (blockIdx t) b
                               (threadIdx t))
      (grid_threads g b) (KState dm [])) as [ok s] eqn:Hrun.
    exists (k_mem s), [EvKernel (k_log s) ok].
    split; [reflexivity|]. split_and!.
    + unfold drain, run_launch. simpl. rewrite Hrun. reflexivity.
    + pose proof (run_kernel_within output (λ _, True)
        (sched (grid_threads g b))
        (λ t, processImageKernel input output width height (blockIdx t) b
                                 (threadIdx t))
        (grid_threads g b) (KState dm [])) as Hconf.
      rewrite Hrun in Hconf. apply Hconf.
      intros t _. by apply processImageKernel_within.
    + left. split; [done|]. by eexists _, _.
  - eexists _, _, dm, []. split; [reflexivity|].
    split_and!; [by rewrite app_nil_r|apply mem_frame_refl|by right].
Qed.

Lemma cudaFree_idle p hm dm fr junk sched tr :
  ∃ r,
    cudaFree p (MkWorld hm dm fr junk sched [] tr)
    = (r, MkWorld hm (release p dm) (fr + released p dm) junk sched []
                  (tr ++ [EvFree p r])) ∧
    (r = cudaSuccess ↔ ∃ h, p = Device h ∧ is_Some (dm !! h)).
Proof.
  unfold cudaFree, release, released. rewrite drain_idle. cbv zeta.
  destruct p as [a|h|]; simpl.
  - rewrite Z.add_0_r. eexists. split; [done|].
    split; [done|]. by intros (h & ? & _).
  - destruct (dm !! h) as [buf|] eqn:Hb; simpl.
    + eexists. split; [done|]. split; [|done].
      intros _. exists h. by rewrite Hb.
    + rewrite Z.add_0_r, delete_id by done. eexists. split; [done|].
      split; [done|]. intros (h' & [= <-] & Hs). rewrite Hb in Hs.
      by destruct Hs.
  - rewrite Z.add_0_r. eexists. split; [done|].
    split; [done|]. by intros (h & ? & _).
Qed.

Lemma mem_frame_wild m m' : mem_frame Wild m m' → m' = m.
Proof. intros [Hfr _]. apply map_eq. intros h. by apply Hfr. Qed.

Lemma mem_frame_host a m m' : mem_frame (Host a) m m' → m' = m.
Proof. intros [Hfr _]. apply map_eq. intros h. by apply Hfr. Qed.

Lemma mem_frame_length out m m' h buf :
  mem_frame out m m' → m !! h = Some buf →
  ∃ buf', m' !! h = Some buf' ∧ length buf' = length buf.
Proof.
  intros [_ Hlen] Hb. specialize (Hlen h). rewrite Hb in Hlen.
  destruct (m' !! h) as [buf'|]; simpl in Hlen; [|done].
  exists buf'. split; [done|]. congruence.
Qed.

Lemma processImage_unfold input output width height w :
  processImage input output width height w
  = let '((_, d_input), w1) :=
      cudaMalloc Wild (to_size_t (imul (imul width height) 3)) w in
    let '((_, d_output), w2) :=
      cudaMalloc Wild (to_size_t (imul (imul width height) 3)) w1 in
    processImage_rest d_input d_output input output width height w2.
Proof.
  unfold processImage, processImage_rest, mbind, HostM_bind.
  destruct (cudaMalloc _ _ w) as [[r1 p1] w1].
  destruct (cudaMalloc _ _ w1) as [[r2 p2] w2]. reflexivity.
Qed.

Lemma processImage_rest_idle p1 p2 input output width height
    hm dm fr junk sched tr :
  ∃ hm' dm' r3 r4 kevs r5 r6 r7,
    processImage_rest p1 p2 input output width height
                      (MkWorld hm dm fr junk sched [] tr)
    = (tt, MkWorld hm' (release p2 (release p1 dm'))
             (fr + released p1 dm' + released p2 (release p1 dm'))
             junk sched []
             (tr ++
              [ EvMemcpy p1 input (to_size_t (imul (imul width height) 3))
                         cudaMemcpyHostToDevice r3;
                EvLaunch (dimGrid width height dimBlock) dimBlock r4 ]
              ++ kevs ++
              [ EvMemcpy output p2 (to_size_t (imul (imul width height) 3))
                         cudaMemcpyDeviceToHost r5;
                EvFree p1 r6; EvFree p2 r7 ])) ∧
    launch_outcome r4 kevs ∧
    (r6 = cudaSuccess ↔ ∃ h, p1 = Device h ∧ is_Some (dm' !! h)) ∧
    (r7 = cudaSuccess ↔ ∃ h, p2 = Device h ∧ is_Some (release p1 dm' !! h)) ∧
    (∀ h, p1 ≠ Device h → p2 ≠ Device h → dm' !! h = dm !! h) ∧
    (∀ h, length <$> (dm' !! h) = length <$> (dm !! h)) ∧
    (∀ a, output ≠ Host a → hm' !! a = hm !! a).
Proof.
  unfold processImage_rest, mbind, HostM_bind, mret, HostM_ret.
  set (n := to_size_t (imul (imul width height) 3)).
  destruct (cudaMemcpy_idle p1 input n cudaMemcpyHostToDevice
              hm dm fr junk sched tr)
    as (r3 & hm3 & dm3 & E3 & F3 & _ & Hhm3 & _).
  rewrite E3. cbv beta iota zeta. rewrite (Hhm3 eq_refl). clear E3 Hhm3 hm3.
  destruct (launch_drain_idle p1 p2 width height
              (dimGrid width height dimBlock) dimBlock hm dm3 fr junk sched
              (tr ++ [EvMemcpy p1 input n cudaMemcpyHostToDevice r3]))
    as (r4 & w4 & dm4 & kevs & E4 & D4 & F4 & Hkevs).
  rewrite E4. cbv beta iota zeta. rewrite cudaMemcpy_drain, D4. clear E4 D4.
  match goal with |- context [cudaMemcpy _ _ _ _ (MkWorld _ _ _ _ _ _ ?t)] =>
    destruct (cudaMemcpy_idle output p2 n cudaMemcpyDeviceToHost
                hm dm4 fr junk sched t)
      as (r5 & hm5 & dm5 & E5 & _ & Hdm5 & _ & Hhm5)
  end.
  rewrite E5. cbv beta iota zeta. rewrite (Hdm5 eq_refl). clear E5 Hdm5 dm5.
  match goal with |- context [cudaFree _ (MkWorld _ _ _ _ _ _ ?t)] =>
    destruct (cudaFree_idle p1 hm5 dm4 fr junk sched t) as (r6 & E6 & Hr6)
  end.
  rewrite E6. cbv beta iota zeta. clear E6.
  match goal with |- context [cudaFree _ (MkWorld _ _ _ _ _ _ ?t)] =>
    destruct (cudaFree_idle p2 hm5 (release p1 dm4) (fr + released p1 dm4)
                junk sched t) as (r7 & E7 & Hr7)
  end.
  rewrite E7. clear E7.
  exists hm5, dm4, r3, r4, kevs, r5, r6, r7. split_and!; try done.
  - f_equal. f_equal. repeat rewrite <- app_assoc. reflexivity.
  - intros h Hp1 Hp2. destruct F3 as [F3 _], F4 as [F4 _].
    by rewrite F4, F3.
  - intros h. destruct F3 as [_ F3], F4 as [_ F4]. by rewrite F4, F3.
Qed.

(** A call on an idle device, whatever its arguments and whatever fails on
    the way.  The trace is the seven runtime calls in program order, with the
    one kernel execution, if the launch was accepted, between the launch and
    the copy out.  The device is left exactly as it was found: same
    allocations with the same contents, same free memory, empty stream; an
    allocation that succeeded is released successfully.  Of host memory only
    the buffer [output] may differ. *)
Lemma processImage_idle_run input output width height hm dm fr junk sched tr :
  ∃ hm' r1 p1 r2 p2 r3 r4 kevs r5 r6 r7,
    processImage input output width height (MkWorld hm dm fr junk sched [] tr)
    = (tt, MkWorld hm' dm fr junk sched []
             (tr ++
              [ EvMalloc (to_size_t (imul (imul width height) 3)) r1 p1;
                EvMalloc (to_size_t (imul (imul width height) 3)) r2 p2;
                EvMemcpy p1 input (to_size_t (imul (imul width height) 3))
                         cudaMemcpyHostToDevice r3;
                EvLaunch (dimGrid width height dimBlock) dimBlock r4 ]
              ++ kevs ++
              [ EvMemcpy output p2 (to_size_t (imul (imul width height) 3))
                         cudaMemcpyDeviceToHost r5;
                EvFree p1 r6; EvFree p2 r7 ])) ∧
    launch_outcome r4 kevs ∧
    (r1 = cudaSuccess → r6 = cudaSuccess) ∧
    (r2 = cudaSuccess → r7 = cudaSuccess) ∧
    (∀ a, output ≠ Host a → hm' !! a = hm !! a).
Proof.
  rewrite processImage_unfold.
  set (n := to_size_t (imul (imul width height) 3)).
  assert (0 ≤ n) as Hn by apply to_size_t_nonneg.
  destruct (decide (n ≤ fr)) as [Hok1|Hfail1].
  - rewrite cudaMalloc_ok by done.
    set (h1 := fresh (dom dm)). set (b1 := junk <$> seq 0 (Z.to_nat n)).
    assert (dm !! h1 = None) as Hh1 by apply fresh_lookup_None.
    assert (Z.of_nat (length b1) = n) as Hb1
      by (by apply length_fresh_buffer).
    destruct (decide (n ≤ fr - n)) as [Hok2|Hfail2].
    + rewrite cudaMalloc_ok by done. fold b1.
      set (h2 := fresh (dom (<[h1 := b1]> dm))).
      assert (<[h1 := b1]> dm !! h2 = None) as Hh2 by apply fresh_lookup_None.
      assert (h1 ≠ h2) as Hne.
      { intros Heq. rewrite <- Heq, lookup_insert_eq in Hh2. done. }
      rewrite lookup_insert_ne in Hh2 by done.
      match goal with |- context [processImage_rest _ _ _ _ _ _
                                    (MkWorld _ ?m ?f _ _ _ ?t)] =>
        destruct (processImage_rest_idle (Device h1) (Device h2) input output
                    width height hm m f junk sched t)
          as (hm' & dm' & r3 & r4 & kevs & r5 & r6 & r7
              & E & Hk & Hr6 & Hr7 & Hfr & Hlen & Hhost)
      end.
      rewrite E. clear E.
      pose proof (Hlen h1) as Hl1. pose proof (Hlen h2) as Hl2.
      rewrite lookup_insert_ne, lookup_insert_eq in Hl1 by done.
      rewrite lookup_insert_eq in Hl2.
      destruct (dm' !! h1) as [c1|] eqn:Hc1; [|done].
      destruct (dm' !! h2) as [c2|] eqn:Hc2; [|done].
      simpl in Hl1, Hl2. injection Hl1 as Hl1. injection Hl2 as Hl2.
      exists hm', cudaSuccess, (Device h1), cudaSuccess, (Device h2),
        r3, r4, kevs, r5, r6, r7.
      split_and!; try done.
      * f_equal. f_equal.
        -- unfold release. apply map_eq. intros h.
           destruct (decide (h = h2)) as [->|?]; [by rewrite lookup_delete_eq|].
           rewrite lookup_delete_ne by done.
           destruct (decide (h = h1)) as [->|?]; [by rewrite lookup_delete_eq|].
           rewrite lookup_delete_ne by done.
           rewrite Hfr by congruence. by rewrite !lookup_insert_ne.
        -- unfold release, released.
           rewrite Hc1, lookup_delete_ne, Hc2 by done. simpl. lia.
        -- repeat rewrite <- app_assoc. reflexivity.
      * intros _. apply Hr6. exists h1. by rewrite Hc1.
      * intros _. apply Hr7. exists h2. unfold release.
        by rewrite lookup_delete_ne, Hc2.
    + rewrite cudaMalloc_fail by lia.
      match goal with |- context [processImage_rest _ _ _ _ _ _
                                    (MkWorld _ ?m ?f _ _ _ ?t)] =>
        destruct (processImage_rest_idle (Device h1) Wild input output
                    width height hm m f junk sched t)
          as (hm' & dm' & r3 & r4 & kevs & r5 & r6 & r7
              & E & Hk & Hr6 & Hr7 & Hfr & Hlen & Hhost)
      end.
      rewrite E. clear E.
      pose proof (Hlen h1) as Hl1. rewrite lookup_insert_eq in Hl1.
      destruct (dm' !! h1) as [c1|] eqn:Hc1; [|done].
      simpl in Hl1. injection Hl1 as Hl1.
      exists hm', cudaSuccess, (Device h1), cudaErrorMemoryAllocation, Wild,
        r3, r4, kevs, r5, r6, r7.
      split_and!; try done.
      * f_equal. f_equal.
        -- unfold release. apply map_eq. intros h.
           destruct (decide (h = h1)) as [->|?]; [by rewrite lookup_delete_eq|].
           rewrite lookup_delete_ne by done.
           rewrite Hfr by congruence. by rewrite lookup_insert_ne.
        -- unfold release, released. rewrite Hc1. simpl. lia.
        -- repeat rewrite <- app_assoc. reflexivity.
      * intros _. apply Hr6. exists h1. by rewrite Hc1.
  - rewrite cudaMalloc_fail by lia. rewrite cudaMalloc_fail by lia.
    match goal with |- context [processImage_rest _ _ _ _ _ _
                                  (MkWorld _ ?m ?f _ _ _ ?t)] =>
      destruct (processImage_rest_idle Wild Wild input output
                  width height hm m f junk sched t)
        as (hm' & dm' & r3 & r4 & kevs & r5 & r6 & r7
            & E & Hk & Hr6 & Hr7 & Hfr & Hlen & Hhost)
    end.
    rewrite E. clear E.
    exists hm', cudaErrorMemoryAllocation, Wild, cudaErrorMemoryAllocation,
      Wild, r3, r4, kevs, r5, r6, r7.
    split_and!; try done.
    f_equal. f_equal.
    + unfold release. apply map_eq. intros h. by apply Hfr.
    + unfold released. lia.
    + repeat rewrite <- app_assoc. reflexivity.
Qed.

(** ** The partition of the image *)



(** The launch for a 17 x 3 image: 2 x 1 blocks, 512 threads, of which the
    guard lets 51 through. *)
Example launch_17x3 :
  dimGrid 17 3 dimBlock = Dim3 2 1 ∧
  length (grid_threads (dimGrid 17 3 dimBlock) dimBlock) = 512%nat ∧
  length (filter (λ t, fst (thread_pixel dimBlock t) < 17 ∧
                       snd (thread_pixel dimBlock t) < 3)
                 (grid_threads (dimGrid 17 3 dimBlock) dimBlock)) = 51%nat.
Proof. vm_compute. done. Qed.

(** Whatever the schedule and the device memory, no thread of the launch
    ever uses a subscript [width * height * 3] or above. *)
Lemma launch_subscripts_below input output width height schedule m :
  0 < width ≤ INT_MAX → 0 < height ≤ INT_MAX →
  Forall (λ a, access_index a < width * height * 3)
    (k_log (run_kernel schedule
              (λ t, processImageKernel input output width height
                      (blockIdx t) dimBlock (threadIdx t))
              (grid_threads (dimGrid width height dimBlock) dimBlock)
              (KState m [])).2).
Proof.
  intros Hw Hh.
  destruct (run_kernel_within output
              (λ a, access_index a < width * height * 3) schedule
              (λ t, processImageKernel input output width height
                      (blockIdx t) dimBlock (threadIdx t))
              (grid_threads (dimGrid width height dimBlock) dimBlock)
              (KState m [])) as [_ (log & Hlog & Hall)].
  - intros t Ht.
    destruct (grid_thread_coords width height t Hw Hh Ht)
      as (Ex & Ey & ? & ? & ? & ?).
    apply processImageKernel_within.
    intros Hx Hy c a Hc ->. apply subscript_below; lia.
  - by rewrite Hlog.
Qed.

(** A thread that copies, run on its own on two well-sized buffers: it
    returns, and every access moved the byte [bin] has at its subscript. *)
Lemma finish_copies hi ho bin bo todo code m :
  hi ≠ ho → copies hi ho bin todo code →
  m !! hi = Some bin → m !! ho = Some bo → length bo = length bin →
  (finish code (KState m [])).1 = true ∧
  Forall (faithful hi ho bin) (k_log (finish code (KState m [])).2).
Proof.
  intros Hne Hcode Hi Ho Hlo.
  destruct (finish_all_copying hi ho bin m Hne (mjoin [todo]) [todo]
              [Some code] (KState m [])) as (s' & Hfin & Hend).
  { split_and!; simpl; [|done|exists bo; split_and!; [done..|]|done|done|done].
    - constructor; [by exists code|constructor].
    - intros j Hj. by left. }
  simpl in Hfin. destruct (finish code (KState m [])) as [ok s1].
  injection Hfin as Hok <-. rewrite andb_true_r in Hok. simpl.
  split; [done|]. by destruct Hend as (_ & _ & _ & _ & Hlog & _).
Qed.

(** C3.  A thread of the launch whose coordinates fall outside the image
    ([x >= width] or [y >= height]) does nothing at all: its code is a plain
    return, and it leaves memory and access log unchanged.  Every subscript a
    thread of the launch can use, for a read of [input] or a write to
    [output], is strictly below [width * height * 3]; and when the two device
    buffers are distinct live allocations of [width * height * 3] bytes, with
    that count within [int], the thread does not trap and each of its
    accesses is inside its buffer. *)
Theorem kernel_guard_and_bounds (input output : ptr) (width height : Z)
    (t : thread) (m : gmap positive (list byte)) :
  0 < width ≤ INT_MAX → 0 < height ≤ INT_MAX →
  t ∈ grid_threads (dimGrid width height dimBlock) dimBlock →
  let code := processImageKernel input output width height
                (blockIdx t) dimBlock (threadIdx t) in
  let run := finish code (KState m []) in
  ((width ≤ kernel_x (blockIdx t) dimBlock (threadIdx t) ∨
    height ≤ kernel_y (blockIdx t) dimBlock (threadIdx t)) →
   code = mret tt ∧ run = (true, KState m [])) ∧
  within output (λ a, access_index a < width * height * 3) code ∧
  Forall (λ a, access_index a < width * height * 3) (k_log run.2) ∧
  (∀ hi ho bin bo,
     input = Device hi → output = Device ho → hi ≠ ho →
     m !! hi = Some bin → m !! ho = Some bo →
     Z.of_nat (length bin) = width * height * 3 → length bo = length bin →
     width * height * 3 ≤ INT_MAX →
     run.1 = true ∧
     Forall (λ a, 0 ≤ access_index a < width * height * 3 ∧
                  ∀ p i, a ≠ Fault p i) (k_log run.2)).
Proof.
  intros Hw Hh Ht code run.
  destruct (grid_thread_coords width height t Hw Hh Ht)
    as (Ex & Ey & ? & ? & ? & ?).
  assert (within output (λ a, access_index a < width * height * 3) code)
    as Hwithin.
  { apply processImageKernel_within.
    intros Hx Hy c a Hc ->. apply subscript_below; lia. }
  split_and!.
  - intros Hout.
    assert (code = mret tt) as Hcode.
    { subst code. unfold processImageKernel. destruct Hout as [Hout|Hout].
      + by rewrite (bool_decide_eq_false_2 (_ < width)) by lia.
      + rewrite (bool_decide_eq_false_2 (_ < height)) by lia.
        by rewrite andb_false_r. }
    split; [done|]. subst run. by rewrite Hcode.
  - done.
  - destruct (finish_within output _ code (KState m []) Hwithin)
      as [_ (log & Hlog & Hall)].
    fold run in Hlog. by rewrite Hlog.
  - intros hi ho bin bo -> -> Hne Hi Ho Hlen Hlo Hfit.
    destruct (finish_copies hi ho bin bo
                (thread_stores width height dimBlock t) code m)
      as [Hok Hlog]; try done.
    { apply copies_kernel; lia. }
    fold run in Hok, Hlog. split; [done|].
    eapply Forall_impl; [exact Hlog|].
    intros [p i v|p i v|p i]; simpl; [| |done].
    + intros (_ & Hi0 & Hv). apply lookup_lt_Some in Hv. split; [lia|done].
    + intros (_ & Hi0 & Hv). apply lookup_lt_Some in Hv. split; [lia|done].
Qed.

Lemma kernel_guard_and_bounds_17x3 :
  let input := Device 1 in
  let output := Device 2 in
  let t := Thread (Dim3 1 0) (Dim3 5 2) in
  let m : gmap positive (list byte) :=
    <[1%positive := replicate 153 x2a]> (<[2%positive := replicate 153 x00]> ∅) in
  let code := processImageKernel input output 17 3
                (blockIdx t) dimBlock (threadIdx t) in
  let run := finish code (KState m []) in
  ((17 ≤ kernel_x (blockIdx t) dimBlock (threadIdx t) ∨
    3 ≤ kernel_y (blockIdx t) dimBlock (threadIdx t)) →
   code = mret tt ∧ run = (true, KState m [])) ∧
  within output (λ a, access_index a < 17 * 3 * 3) code ∧
  Forall (λ a, access_index a < 17 * 3 * 3) (k_log run.2) ∧
  (∀ hi ho bin bo,
     input = Device hi → output = Device ho → hi ≠ ho →
     m !! hi = Some bin → m !! ho = Some bo →
     Z.of_nat (length bin) = 17 * 3 * 3 → length bo = length bin →
     17 * 3 * 3 ≤ INT_MAX →
     run.1 = true ∧
     Forall (λ a, 0 ≤ access_index a < 17 * 3 * 3 ∧
                  ∀ p i, a ≠ Fault p i) (k_log run.2)).
Proof.
  apply (kernel_guard_and_bounds (Device 1) (Device 2) 17 3
           (Thread (Dim3 1 0) (Dim3 5 2))).
  - unfold INT_MAX. lia.
  - unfold INT_MAX. lia.
  - apply elem_of_grid_threads. vm_compute. done.
Defined.

(** ** The writes of a whole call *)

(** On a well-formed call the kernel runs once, without a trap, and writes
    to each subscript below [width * height * 3] exactly once: the list of
    the subscripts written is a permutation of [0, width * height * 3). *)
Lemma processImage_writes_each_byte_once (w : World) (a o : positive)
    (width height : Z) (bin bout : list byte) :
  0 < width → 0 < height → width * height * 3 ≤ INT_MAX →
  host_mem w !! a = Some bin → Z.of_nat (length bin) = width * height * 3 →
  host_mem w !! o = Some bout → Z.of_nat (length bout) = width * height * 3 →
  dev_queue w = [] → 2 * (width * height * 3) ≤ dev_free w →
  ∃ log,
    EvKernel log true
      ∈ trace (exec (processImage (Host a) (Host o) width height) w) ∧
    store_indices log ≡ₚ seqZ 0 (width * height * 3).
Proof.
  intros Hw Hh Hfit Ha Hla Ho Hlo Hq Hfree.
  destruct w as [hm dm fr junk sched q tr].
  cbn [host_mem dev_queue dev_free dev_sched] in *. subst q.
  destruct (processImage_valid_run a o width height bin bout hm dm fr junk
              sched tr) as (h1 & h2 & log & _ & _ & Hst & E); try done.
  exists log. split; [|done]. unfold exec. rewrite E. cbn [snd trace].
  apply elem_of_app. right. do 4 apply list_elem_of_further.
  apply list_elem_of_here.
Qed.

(** The 17 x 3 boundary case of the specification: 51 pixels, 153 bytes,
    each written once and all unchanged in the output. *)
Example processImage_17x3 :
  host_mem (exec (processImage (Host 1) (Host 2) 17 3) world_17x3) !! 2%positive
  = Some image_17x3 ∧
  ∃ log,
    EvKernel log true
      ∈ trace (exec (processImage (Host 1) (Host 2) 17 3) world_17x3) ∧
    store_indices log ≡ₚ seqZ 0 153.
Proof.
  split.
  - vm_compute. reflexivity.
  - apply (processImage_writes_each_byte_once world_17x3 1 2 17 3 image_17x3
             (replicate 153 x00)); try reflexivity; try lia.
    + unfold INT_MAX. lia.
    + vm_compute. discriminate.
Qed.

(** The single-pixel boundary case. *)
Example processImage_1x1 :
  host_mem (exec (processImage (Host 1) (Host 2) 1 1) world_1x1) !! 2%positive
  = Some [x0a; x14; x1e].
Proof. vm_compute. reflexivity. Qed.

(** ** When the allocations fail *)

Lemma cudaMemcpy_wild_dst src count kind hm dm fr junk sched tr :
  cudaMemcpy Wild src count kind (MkWorld hm dm fr junk sched [] tr)
  = (cudaErrorInvalidValue,
     MkWorld hm dm fr junk sched []
       (tr ++ [EvMemcpy Wild src count kind cudaErrorInvalidValue])).
Proof. unfold cudaMemcpy. rewrite drain_idle. by destruct kind. Qed.

Lemma cudaMemcpy_wild_src dst count kind hm dm fr junk sched tr :
  cudaMemcpy dst Wild count kind (MkWorld hm dm fr junk sched [] tr)
  = (cudaErrorInvalidValue,
     MkWorld hm dm fr junk sched []
       (tr ++ [EvMemcpy dst Wild count kind cudaErrorInvalidValue])).
Proof. unfold cudaMemcpy. rewrite drain_idle. by destruct kind, dst. Qed.

(** When the device cannot provide the requested byte count, both
    allocations fail, both local pointers stay [Wild], every later call
    fails or traps, and host memory is left as it was: [output] is not
    written. *)
Lemma processImage_out_of_memory input output width height
    hm dm fr junk sched tr :
  fr < to_size_t (imul (imul width height) 3) →
  ∃ evs,
    processImage input output width height (MkWorld hm dm fr junk sched [] tr)
    = (tt, MkWorld hm dm fr junk sched [] (tr ++ evs)).
Proof.
  intros Hfail. rewrite processImage_unfold.
  rewrite cudaMalloc_fail by done. rewrite cudaMalloc_fail by done.
  unfold processImage_rest, mbind, HostM_bind, mret, HostM_ret.
  rewrite cudaMemcpy_wild_dst. cbv beta iota zeta.
  match goal with |- context [cudaLaunchKernel ?g ?b _ (MkWorld _ _ _ _ _ _ ?t)] =>
    destruct (launch_drain_idle Wild Wild width height g b hm dm fr junk sched t)
      as (r4 & w4 & dm4 & kevs & E4 & D4 & F4 & _)
  end.
  rewrite E4. cbv beta iota zeta. rewrite cudaMemcpy_drain, D4.
  apply mem_frame_wild in F4. subst dm4.
  rewrite cudaMemcpy_wild_src. cbv beta iota zeta.
  match goal with |- context [cudaFree _ (MkWorld _ _ _ _ _ _ ?t)] =>
    destruct (cudaFree_idle Wild hm dm fr junk sched t) as (r6 & E6 & _)
  end.
  rewrite E6. cbv beta iota zeta. clear E6. unfold release, released.
  match goal with |- context [cudaFree _ (MkWorld _ _ _ _ _ _ ?t)] =>
    destruct (cudaFree_idle Wild hm dm (fr + 0) junk sched t)
      as (r7 & E7 & _)
  end.
  rewrite E7. clear E7. unfold release, released.
  eexists. f_equal. f_equal; [lia|].
  repeat rewrite <- app_assoc. reflexivity.
Qed.

(** ** The identity transform *)

Lemma big_len_Z : Z.of_nat big_len = 2147483649.
Proof. unfold big_len. rewrite Z2Nat.id; lia. Qed.

Lemma big_len_pos : (0 < big_len)%nat.
Proof. pose proof big_len_Z. lia. Qed.

Global Opaque big_len.

Lemma big_buffers_differ (x y : byte) :
  x ≠ y → Some (replicate big_len x) ≠ Some (replicate big_len y).
Proof.
  intros Hxy Heq. apply (inj Some) in Heq.
  apply (f_equal (λ l : list byte, l !! 0%nat)) in Heq. cbv beta in Heq.
  rewrite !lookup_replicate_2 in Heq by apply big_len_pos. congruence.
Qed.

(** The byte count of a 715827883 x 1 image, as the program computes it. *)
Lemma big_byte_count :
  to_size_t (imul (imul 715827883 1) 3) = 18446744071562067969.
Proof. vm_compute. reflexivity. Qed.

(** On [big_world] a call for a 715827883 x 1 image leaves the host as it
    was. *)
Lemma big_world_call input output :
  host_mem (exec (processImage input output 715827883 1) big_world)
  = host_mem big_world.
Proof.
  unfold big_world, idle_world, exec.
  edestruct (processImage_out_of_memory input output 715827883 1) as (evs & E);
    [|rewrite E; reflexivity].
  rewrite big_byte_count. change (2 ^ 36) with 68719476736. lia.
Qed.






(** ** Idempotence *)



(** A call that asks for more bytes than the device has leaves host memory
    and the device as they were. *)
Lemma out_of_memory_call (w : World) input output width height :
  dev_queue w = [] →
  dev_free w < to_size_t (imul (imul width height) 3) →
  let w' := exec (processImage input output width height) w in
  host_mem w' = host_mem w ∧ dev_queue w' = [] ∧ dev_free w' = dev_free w ∧
  dev_sched w' = dev_sched w.
Proof.
  intros Hq Hfail w'. subst w'. destruct w as [hm dm fr junk sched q tr].
  cbn [dev_queue dev_free] in Hq, Hfail. subst q.
  destruct (processImage_out_of_memory input output width height hm dm fr
              junk sched tr Hfail) as (evs & E).
  unfold exec. by rewrite E.
Qed.


(** ** Resources, frame and failures *)



(** The run on [world_2x2_short]: the second allocation fails, the kernel
    traps on its first store, nothing is copied out, and the one buffer
    that was allocated is released. *)
Example processImage_short_statuses :
  let w' := exec (processImage (Host 1) (Host 2) 2 2) world_2x2_short in
  statuses (trace w')
  = [ cudaSuccess; cudaErrorMemoryAllocation; cudaSuccess; cudaSuccess;
      cudaErrorInvalidValue; cudaSuccess; cudaErrorInvalidValue ] ∧
  dev_mem w' = ∅ ∧ dev_free w' = 15 ∧
  host_mem w' !! 2%positive = Some (replicate 12 x00).
Proof. vm_compute. done. Qed.

(** C6.  The runtime calls [processImage] makes do not depend on what any
    of them returns: in every world and for all arguments the call list is
    the same seven calls, with the same byte count and launch geometry. *)
Theorem processImage_ignores_failures (w : World) (input output : ptr)
    (width height : Z) :
  calls (trace (exec (processImage input output width height) w))
  = calls (trace w)
    ++ [ CallMalloc (to_size_t (imul (imul width height) 3));
         CallMalloc (to_size_t (imul (imul width height) 3));
         CallMemcpy (to_size_t (imul (imul width height) 3))
                    cudaMemcpyHostToDevice;
         CallLaunch (dimGrid width height dimBlock) dimBlock;
         CallMemcpy (to_size_t (imul (imul width height) 3))
                    cudaMemcpyDeviceToHost;
         CallFree; CallFree ].
Proof. apply processImage_calls. Qed.

(** With no free device memory every call but the launch fails, the
    launched kernel traps, and all seven calls are made all the same. *)
Example processImage_full_statuses :
  let w' := exec (processImage (Host 1) (Host 2) 2 2) world_2x2_full in
  statuses (trace w')
  = [ cudaErrorMemoryAllocation; cudaErrorMemoryAllocation;
      cudaErrorInvalidValue; cudaSuccess; cudaErrorInvalidValue;
      cudaErrorInvalidValue; cudaErrorInvalidValue ] ∧
  (∃ log, EvKernel log false ∈ trace w') ∧
  host_mem w' !! 2%positive = Some (replicate 12 x00).
Proof.
  vm_compute. split; [done|]. split; [|done].
  eexists. do 4 apply list_elem_of_further. apply list_elem_of_here.
Qed.

(** A launch the runtime refuses (empty grid) is ignored as well. *)
Example processImage_refused_launch_statuses :
  statuses (trace (exec (processImage (Host 1) (Host 2) 0 2) world_2x2))
  = [ cudaSuccess; cudaSuccess; cudaSuccess; cudaErrorInvalidConfiguration;
      cudaSuccess; cudaSuccess; cudaSuccess ].
Proof. vm_compute. done. Qed.



(** ** Validation and byte counts *)

(** C9 as stated fails: with [width = 0] the call is not rejected; both
    allocations are made (of 0 bytes, and they succeed), and the other calls
    follow. *)
Lemma processImage_zero_width_allocates :
  trace (exec (processImage (Host 1) (Host 2) 0 2) world_2x2)
  = [ EvMalloc 0 cudaSuccess (Device 1);
      EvMalloc 0 cudaSuccess (Device 2);
      EvMemcpy (Device 1) (Host 1) 0 cudaMemcpyHostToDevice cudaSuccess;
      EvLaunch (Dim3 0 1) (Dim3 16 16) cudaErrorInvalidConfiguration;
      EvMemcpy (Host 2) (Device 2) 0 cudaMemcpyDeviceToHost cudaSuccess;
      EvFree (Device 1) cudaSuccess;
      EvFree (Device 2) cudaSuccess ].
Proof. vm_compute. reflexivity. Qed.

(** C9 (as amended).  [processImage] validates nothing: when [width = 0]
    or [height = 0] it still makes its seven runtime calls, starting with
    the two device allocations, each for 0 bytes. *)
Theorem processImage_no_validation (w : World) (input output : ptr)
    (width height : Z) :
  width = 0 ∨ height = 0 →
  calls (trace (exec (processImage input output width height) w))
  = calls (trace w)
    ++ [ CallMalloc 0; CallMalloc 0;
         CallMemcpy 0 cudaMemcpyHostToDevice;
         CallLaunch (dimGrid width height dimBlock) dimBlock;
         CallMemcpy 0 cudaMemcpyDeviceToHost;
         CallFree; CallFree ].
Proof.
  intros Hz. rewrite processImage_calls.
  assert (to_size_t (imul (imul width height) 3) = 0) as ->; [|done].
  unfold imul. destruct Hz as [-> | ->].
  - by rewrite Z.mul_0_l.
  - by rewrite Z.mul_0_r.
Qed.

Lemma processImage_no_validation_zero_width :
  calls (trace (exec (processImage (Host 1) (Host 2) 0 2) world_2x2))
  = calls (trace world_2x2)
    ++ [ CallMalloc 0; CallMalloc 0;
         CallMemcpy 0 cudaMemcpyHostToDevice;
         CallLaunch (dimGrid 0 2 dimBlock) dimBlock;
         CallMemcpy 0 cudaMemcpyDeviceToHost;
         CallFree; CallFree ].
Proof.
  apply (processImage_no_validation world_2x2 (Host 1) (Host 2) 0 2).
  left. reflexivity.
Defined.

Lemma processImage_byte_counts input output width height w :
  byte_counts (trace (exec (processImage input output width height) w))
  = byte_counts (trace w)
    ++ [ to_size_t (imul (imul width height) 3);
         to_size_t (imul (imul width height) 3);
         to_size_t (imul (imul width height) 3);
         to_size_t (imul (imul width height) 3) ].
Proof.
  destruct (processImage_trace input output width height w)
    as (r1 & p1 & r2 & p2 & k1 & r3 & r4 & k2 & r5 & k3 & r6 & k4 & r7
        & K1 & K2 & K3 & K4 & ->).
  unfold byte_counts. repeat rewrite omap_app.
  fold (byte_counts k1) (byte_counts k2) (byte_counts k3) (byte_counts k4).
  rewrite (byte_counts_kernel_events k1), (byte_counts_kernel_events k2),
    (byte_counts_kernel_events k3), (byte_counts_kernel_events k4) by done.
  reflexivity.
Qed.

(** C10.  The byte count of the two allocations and the two copies is
    [width * height * 3] computed in [int]: congruent to the product modulo
    2^32 and within [int].  Once the product is 2^31 or more, neither that
    [int] nor the [size_t] the runtime receives equals the size of the
    buffers. *)
Theorem byte_count_wraps (w : World) (input output : ptr) (width height : Z) :
  is_int width → is_int height → 2 ^ 31 ≤ width * height * 3 →
  let n := imul (imul width height) 3 in
  byte_counts (trace (exec (processImage input output width height) w))
  = byte_counts (trace w) ++ [to_size_t n; to_size_t n; to_size_t n; to_size_t n] ∧
  is_int n ∧
  n mod 2 ^ 32 = (width * height * 3) mod 2 ^ 32 ∧
  n ≠ width * height * 3 ∧
  to_size_t n ≠ width * height * 3.
Proof.
  intros Hw Hh Hbig n. split; [apply processImage_byte_counts|].
  assert (is_int n) as Hn by apply to_int_is_int.
  split; [done|]. split.
  - unfold n, imul. rewrite to_int_congr.
    rewrite <- Zmult_mod_idemp_l, to_int_congr, Zmult_mod_idemp_l. done.
  - unfold is_int, INT_MIN, INT_MAX in *.
    change (2 ^ 31) with 2147483648 in Hbig.
    assert (width * height ≤ 4611686018427387904) by nia.
    split; [lia|].
    unfold to_size_t. change (2 ^ 64) with 18446744073709551616.
    destruct (decide (0 ≤ n)).
    + rewrite Z.mod_small by lia. lia.
    + replace n with (n + 18446744073709551616 - 1 * 18446744073709551616)
        by lia.
      rewrite Zminus_mod, Z_mod_mult, Z.sub_0_r, Zmod_mod.
      rewrite Z.mod_small by lia. lia.
Qed.

Lemma byte_count_wraps_715827883x1 :
  let n := imul (imul 715827883 1) 3 in
  byte_counts (trace (exec (processImage (Host 1) (Host 2) 715827883 1)
                           big_world))
  = byte_counts (trace big_world)
    ++ [to_size_t n; to_size_t n; to_size_t n; to_size_t n] ∧
  is_int n ∧
  n mod 2 ^ 32 = (715827883 * 1 * 3) mod 2 ^ 32 ∧
  n ≠ 715827883 * 1 * 3 ∧
  to_size_t n ≠ 715827883 * 1 * 3.
Proof.
  apply (byte_count_wraps big_world (Host 1) (Host 2) 715827883 1).
  - unfold is_int, INT_MIN, INT_MAX. lia.
  - unfold is_int, INT_MIN, INT_MAX. lia.
  - change (2 ^ 31) with 2147483648. lia.
Defined.

(** * Edge cases of the entry point *)

(** ** Runtime calls on an idle device, continued *)

Lemma cudaMalloc_idle p size hm dm fr junk sched tr :
  ∃ r p' dm' fr',
    cudaMalloc p size (MkWorld hm dm fr junk sched [] tr)
    = ((r, p'),
       MkWorld hm dm' fr' junk sched [] (tr ++ [EvMalloc size r p'])).
Proof.
  destruct (decide (size ≤ fr)).
  - rewrite cudaMalloc_ok by done. by eexists _, _, _, _.
  - rewrite cudaMalloc_fail by lia. by eexists _, _, _, _.
Qed.

(** A copy of zero bytes changes nothing, whether it is accepted or not. *)
Lemma cudaMemcpy_zero dst src kind hm dm fr junk sched tr :
  ∃ r,
    cudaMemcpy dst src 0 kind (MkWorld hm dm fr junk sched [] tr)
    = (r, MkWorld hm dm fr junk sched []
                  (tr ++ [EvMemcpy dst src 0 kind r])).
Proof.
  unfold cudaMemcpy. rewrite drain_idle. cbv zeta.
  destruct kind, dst as [a|h|], src as [a'|h'|]; simpl; try by eexists.
  - destruct (dm !! h) as [d|] eqn:Hd, (hm !! a') as [s|] eqn:Hs;
      try by eexists.
    case_decide; [|by eexists]. eexists. unfold emit, set_dev_mem. simpl.
    unfold blit. simpl. by rewrite insert_id.
  - destruct (hm !! a) as [d|] eqn:Hd, (dm !! h') as [s|] eqn:Hs;
      try by eexists.
    case_decide; [|by eexists]. eexists. unfold emit, set_host_mem. simpl.
    unfold blit. simpl. by rewrite insert_id.
Qed.

(** What the copy of line 29 can do to a host buffer: its length stays the
    same and so do its bytes from [count] on. *)
Lemma cudaMemcpy_d2h_effect dst src count hm dm fr junk sched tr a buf :
  hm !! a = Some buf →
  ∃ buf',
    host_mem (exec (cudaMemcpy dst src count cudaMemcpyDeviceToHost)
                   (MkWorld hm dm fr junk sched [] tr)) !! a = Some buf' ∧
    length buf' = length buf ∧
    drop (Z.to_nat count) buf' = drop (Z.to_nat count) buf.
Proof.
  intros Ha. unfold exec, cudaMemcpy. rewrite drain_idle. cbv zeta.
  destruct dst as [a0|h|], src as [a'|h'|]; simpl; try by exists buf.
  destruct (hm !! a0) as [d|] eqn:Hd, (dm !! h') as [s|] eqn:Hs;
    try by exists buf.
  case_decide as Hc; [|by exists buf]. simpl.
  destruct (decide (a0 = a)) as [->|Hne].
  - rewrite lookup_insert_eq. assert (d = buf) as -> by congruence.
    exists (blit buf s count). split; [done|]. split.
    + apply length_blit; lia.
    + unfold blit. rewrite drop_app_length'; [done|].
      rewrite length_take. lia.
  - rewrite lookup_insert_ne by done. by exists buf.
Qed.

Lemma cudaLaunchKernel_refused g b kernel w :
  ¬ (0 < dim3_x g ∧ 0 < dim3_y g ∧ 0 < dim3_x b ∧ 0 < dim3_y b) →
  cudaLaunchKernel g b kernel w
  = (cudaErrorInvalidConfiguration,
     emit (EvLaunch g b cudaErrorInvalidConfiguration) w).
Proof. intros Hno. unfold cudaLaunchKernel. by rewrite decide_False. Qed.

(** The grid of an image without pixels has no block. *)
Lemma dimGrid_empty width height :
  width = 0 ∨ height = 0 →
  ¬ (0 < dim3_x (dimGrid width height dimBlock) ∧
     0 < dim3_y (dimGrid width height dimBlock) ∧
     0 < dim3_x dimBlock ∧ 0 < dim3_y dimBlock).
Proof.
  intros [-> | ->].
  - change (dim3_x (dimGrid 0 height dimBlock)) with 0. lia.
  - change (dim3_y (dimGrid width 0 dimBlock)) with 0. lia.
Qed.

Lemma byte_count_empty width height :
  width = 0 ∨ height = 0 → to_size_t (imul (imul width height) 3) = 0.
Proof.
  unfold imul. intros [-> | ->].
  - by rewrite Z.mul_0_l.
  - by rewrite Z.mul_0_r.
Qed.

(** ** An image without pixels *)

Lemma processImage_rest_empty p1 p2 input output width height
    hm dm fr junk sched tr :
  width = 0 ∨ height = 0 →
  ∃ dm' fr' r3 r5 r6 r7,
    processImage_rest p1 p2 input output width height
                      (MkWorld hm dm fr junk sched [] tr)
    = (tt, MkWorld hm dm' fr' junk sched []
             (tr ++
              [ EvMemcpy p1 input 0 cudaMemcpyHostToDevice r3;
                EvLaunch (dimGrid width height dimBlock) dimBlock
                         cudaErrorInvalidConfiguration;
                EvMemcpy output p2 0 cudaMemcpyDeviceToHost r5;
                EvFree p1 r6; EvFree p2 r7 ])).
Proof.
  intros Hz. unfold processImage_rest, mbind, HostM_bind, mret, HostM_ret.
  rewrite (byte_count_empty width height Hz).
  destruct (cudaMemcpy_zero p1 input cudaMemcpyHostToDevice hm dm fr junk
              sched tr) as (r3 & E3).
  rewrite E3. cbv beta iota zeta. clear E3.
  rewrite cudaLaunchKernel_refused by by apply dimGrid_empty.
  cbv beta iota zeta. unfold emit.
  cbn [host_mem dev_mem dev_free dev_junk dev_sched dev_queue trace].
  match goal with |- context [cudaMemcpy _ _ _ _ (MkWorld _ _ _ _ _ _ ?t)] =>
    destruct (cudaMemcpy_zero output p2 cudaMemcpyDeviceToHost hm dm fr junk
                sched t) as (r5 & E5)
  end.
  rewrite E5. cbv beta iota zeta. clear E5.
  match goal with |- context [cudaFree _ (MkWorld _ _ _ _ _ _ ?t)] =>
    destruct (cudaFree_idle p1 hm dm fr junk sched t) as (r6 & E6 & _)
  end.
  rewrite E6. cbv beta iota zeta. clear E6.
  match goal with |- context [cudaFree _ (MkWorld _ _ _ _ _ _ ?t)] =>
    destruct (cudaFree_idle p2 hm (release p1 dm) (fr + released p1 dm)
                junk sched t) as (r7 & E7 & _)
  end.
  rewrite E7. clear E7.
  eexists _, _, r3, r5, r6, r7. f_equal. f_equal.
  repeat rewrite <- app_assoc. reflexivity.
Qed.

(** X1.  With [width = 0] or [height = 0] the call goes through its seven
    runtime calls, but the launch is refused for its empty grid, no kernel
    runs, and host memory is left exactly as it was: the two copies move
    zero bytes. *)
Theorem processImage_empty_image (w : World) (input output : ptr)
    (width height : Z) :
  width = 0 ∨ height = 0 → dev_queue w = [] →
  let w' := exec (processImage input output width height) w in
  host_mem w' = host_mem w ∧
  ∃ r1 p1 r2 p2 r3 r5 r6 r7,
    trace w' = trace w ++
      [ EvMalloc 0 r1 p1; EvMalloc 0 r2 p2;
        EvMemcpy p1 input 0 cudaMemcpyHostToDevice r3;
        EvLaunch (dimGrid width height dimBlock) dimBlock
                 cudaErrorInvalidConfiguration;
        EvMemcpy output p2 0 cudaMemcpyDeviceToHost r5;
        EvFree p1 r6; EvFree p2 r7 ].
Proof.
  intros Hz Hq w'. subst w'. destruct w as [hm dm fr junk sched q tr].
  cbn [dev_queue host_mem trace] in *. subst q.
  unfold exec. rewrite processImage_unfold.
  rewrite (byte_count_empty width height Hz).
  destruct (cudaMalloc_idle Wild 0 hm dm fr junk sched tr)
    as (r1 & p1 & dm1 & fr1 & E1).
  rewrite E1. clear E1.
  destruct (cudaMalloc_idle Wild 0 hm dm1 fr1 junk sched
              (tr ++ [EvMalloc 0 r1 p1])) as (r2 & p2 & dm2 & fr2 & E2).
  rewrite E2. clear E2.
  destruct (processImage_rest_empty p1 p2 input output width height hm dm2
              fr2 junk sched ((tr ++ [EvMalloc 0 r1 p1]) ++ [EvMalloc 0 r2 p2])
              Hz) as (dm' & fr' & r3 & r5 & r6 & r7 & E).
  rewrite E. cbn [snd host_mem trace]. split; [done|].
  exists r1, p1, r2, p2, r3, r5, r6, r7.
  repeat rewrite <- app_assoc. reflexivity.
Qed.

Lemma processImage_empty_image_0x2 :
  let w' := exec (processImage (Host 1) (Host 2) 0 2) world_2x2 in
  host_mem w' = host_mem world_2x2 ∧
  ∃ r1 p1 r2 p2 r3 r5 r6 r7,
    trace w' = trace world_2x2 ++
      [ EvMalloc 0 r1 p1; EvMalloc 0 r2 p2;
        EvMemcpy p1 (Host 1) 0 cudaMemcpyHostToDevice r3;
        EvLaunch (dimGrid 0 2 dimBlock) dimBlock
                 cudaErrorInvalidConfiguration;
        EvMemcpy (Host 2) p2 0 cudaMemcpyDeviceToHost r5;
        EvFree p1 r6; EvFree p2 r7 ].
Proof.
  apply (processImage_empty_image world_2x2 (Host 1) (Host 2) 0 2).
  - left. reflexivity.
  - reflexivity.
Defined.

(** ** What a call can do to host memory *)

(** On an idle device, host memory after a call is host memory after the
    copy of line 29, made from some idle state of the device: nothing else
    in [processImage] writes to the host. *)
Lemma processImage_host_effect input output width height
    hm dm fr junk sched tr :
  ∃ p2 dm' fr' tr',
    host_mem (exec (processImage input output width height)
                   (MkWorld hm dm fr junk sched [] tr))
    = host_mem (exec (cudaMemcpy output p2
                        (to_size_t (imul (imul width height) 3))
                        cudaMemcpyDeviceToHost)
                     (MkWorld hm dm' fr' junk sched [] tr')).
Proof.
  unfold exec at 1. rewrite processImage_unfold.
  set (n := to_size_t (imul (imul width height) 3)).
  destruct (cudaMalloc_idle Wild n hm dm fr junk sched tr)
    as (r1 & p1 & dm1 & fr1 & E1).
  rewrite E1. clear E1.
  destruct (cudaMalloc_idle Wild n hm dm1 fr1 junk sched
              (tr ++ [EvMalloc n r1 p1])) as (r2 & p2 & dm2 & fr2 & E2).
  rewrite E2. clear E2.
  unfold processImage_rest, mbind, HostM_bind, mret, HostM_ret. fold n.
  match goal with |- context [cudaMemcpy _ _ _ _ (MkWorld _ _ _ _ _ _ ?t)] =>
    destruct (cudaMemcpy_idle p1 input n cudaMemcpyHostToDevice
                hm dm2 fr2 junk sched t)
      as (r3 & hm3 & dm3 & E3 & _ & _ & Hhm3 & _)
  end.
  rewrite E3. cbv beta iota zeta. rewrite (Hhm3 eq_refl). clear E3 Hhm3 hm3.
  match goal with
  | |- context [cudaLaunchKernel ?g ?b _ (MkWorld _ _ _ _ _ _ ?t)] =>
    destruct (launch_drain_idle p1 p2 width height g b hm dm3 fr2 junk sched t)
      as (r4 & w4 & dm4 & kevs & E4 & D4 & _ & _)
  end.
  rewrite E4. cbv beta iota zeta. rewrite cudaMemcpy_drain, D4. clear E4 D4.
  match goal with |- context [cudaMemcpy _ _ _ _ (MkWorld _ _ _ _ _ _ ?t)] =>
    exists p2, dm4, fr2, t;
    destruct (cudaMemcpy_idle output p2 n cudaMemcpyDeviceToHost
                hm dm4 fr2 junk sched t)
      as (r5 & hm5 & dm5 & E5 & _ & _ & _ & _)
  end.
  unfold exec. rewrite E5. cbv beta iota zeta. clear E5.
  match goal with |- context [cudaFree _ (MkWorld _ _ _ _ _ _ ?t)] =>
    destruct (cudaFree_idle p1 hm5 dm5 fr2 junk sched t) as (r6 & E6 & _)
  end.
  rewrite E6. cbv beta iota zeta. clear E6.
  match goal with |- context [cudaFree _ (MkWorld _ _ _ _ _ _ ?t)] =>
    destruct (cudaFree_idle p2 hm5 (release p1 dm5) (fr2 + released p1 dm5)
                junk sched t) as (r7 & E7 & _)
  end.
  rewrite E7. reflexivity.
Qed.

(** X2.  Whatever the arguments, a call on an idle device changes the length
    of no host buffer, and leaves every byte of every host buffer from
    offset [width * height * 3] (as the [int] expression evaluates) on as it
    was: the output buffer is never written past the byte count of line
    29. *)
Theorem processImage_writes_at_most_byte_count (w : World)
    (input output : ptr) (width height : Z) (a : positive) (buf : list byte) :
  dev_queue w = [] → host_mem w !! a = Some buf →
  ∃ buf',
    host_mem (exec (processImage input output width height) w) !! a
      = Some buf' ∧
    length buf' = length buf ∧
    drop (Z.to_nat (to_size_t (imul (imul width height) 3))) buf'
    = drop (Z.to_nat (to_size_t (imul (imul width height) 3))) buf.
Proof.
  destruct w as [hm dm fr junk sched q tr].
  cbn [dev_queue host_mem]. intros -> Ha.
  destruct (processImage_host_effect input output width height hm dm fr junk
              sched tr) as (p2 & dm' & fr' & tr' & ->).
  by apply cudaMemcpy_d2h_effect.
Qed.

Lemma processImage_writes_at_most_byte_count_roomy :
  ∃ buf',
    host_mem (exec (processImage (Host 1) (Host 2) 2 2) world_2x2_roomy)
      !! 2%positive = Some buf' ∧
    length buf' = length (replicate 14 x77) ∧
    drop (Z.to_nat (to_size_t (imul (imul 2 2) 3))) buf'
    = drop (Z.to_nat (to_size_t (imul (imul 2 2) 3))) (replicate 14 x77).
Proof.
  apply (processImage_writes_at_most_byte_count world_2x2_roomy
           (Host 1) (Host 2) 2 2 2%positive (replicate 14 x77)).
  - reflexivity.
  - reflexivity.
Defined.

(** ** Not enough device memory *)

(** Without a device output buffer nothing reaches the host. *)
Lemma processImage_rest_wild_output p1 input output width height
    hm dm fr junk sched tr :
  ∃ dm' fr' evs,
    processImage_rest p1 Wild input output width height
                      (MkWorld hm dm fr junk sched [] tr)
    = (tt, MkWorld hm dm' fr' junk sched [] (tr ++ evs)).
Proof.
  unfold processImage_rest, mbind, HostM_bind, mret, HostM_ret.
  set (n := to_size_t (imul (imul width height) 3)).
  destruct (cudaMemcpy_idle p1 input n cudaMemcpyHostToDevice
              hm dm fr junk sched tr)
    as (r3 & hm3 & dm3 & E3 & _ & _ & Hhm3 & _).
  rewrite E3. cbv beta iota zeta. rewrite (Hhm3 eq_refl). clear E3 Hhm3 hm3.
  match goal with
  | |- context [cudaLaunchKernel ?g ?b _ (MkWorld _ _ _ _ _ _ ?t)] =>
    destruct (launch_drain_idle p1 Wild width height g b hm dm3 fr junk sched t)
      as (r4 & w4 & dm4 & kevs & E4 & D4 & _ & _)
  end.
  rewrite E4. cbv beta iota zeta. rewrite cudaMemcpy_drain, D4. clear E4 D4.
  rewrite cudaMemcpy_wild_src. cbv beta iota zeta.
  match goal with |- context [cudaFree _ (MkWorld _ _ _ _ _ _ ?t)] =>
    destruct (cudaFree_idle p1 hm dm4 fr junk sched t) as (r6 & E6 & _)
  end.
  rewrite E6. cbv beta iota zeta. clear E6.
  match goal with |- context [cudaFree _ (MkWorld _ _ _ _ _ _ ?t)] =>
    destruct (cudaFree_idle Wild hm (release p1 dm4) (fr + released p1 dm4)
                junk sched t) as (r7 & E7 & _)
  end.
  rewrite E7. clear E7.
  eexists _, _, _. f_equal. f_equal.
  repeat rewrite <- app_assoc. reflexivity.
Qed.



(** ** A negative dimension *)

Lemma byte_count_negative width height :
  INT_MIN ≤ width * height * 3 < 0 →
  to_size_t (imul (imul width height) 3) = 2 ^ 64 + width * height * 3.
Proof.
  unfold INT_MIN. intros Hn. unfold imul.
  rewrite (to_int_id (width * height)) by in_int.
  rewrite to_int_id by in_int.
  unfold to_size_t. change (2 ^ 64) with 18446744073709551616.
  symmetry. apply Z.mod_unique with (-1); lia.
Qed.

(** X4.  A negative [width] or [height] is not rejected either.  When the
    product [width * height * 3] is negative and within [int], its
    conversion to [size_t] asks for [2^64 + width * height * 3] bytes, at
    least [2^64 - 2^31]: on a device with less free memory than that both
    allocations fail and host memory is left as it was. *)
Theorem processImage_negative_size (w : World) (input output : ptr)
    (width height : Z) :
  INT_MIN ≤ width * height * 3 < 0 →
  dev_queue w = [] → dev_free w < 2 ^ 64 - 2 ^ 31 →
  let w' := exec (processImage input output width height) w in
  host_mem w' = host_mem w ∧
  ∃ evs,
    trace w' = trace w ++
      [ EvMalloc (2 ^ 64 + width * height * 3) cudaErrorMemoryAllocation Wild;
        EvMalloc (2 ^ 64 + width * height * 3) cudaErrorMemoryAllocation Wild ]
      ++ evs.
Proof.
  intros Hn Hq Hfree w'. subst w'. destruct w as [hm dm fr junk sched q tr].
  cbn [dev_queue dev_free host_mem trace] in *. subst q.
  unfold exec. rewrite processImage_unfold.
  rewrite (byte_count_negative width height Hn).
  assert (fr < 2 ^ 64 + width * height * 3) as Hfail.
  { unfold INT_MIN in Hn. change (2 ^ 64) with 18446744073709551616 in *.
    change (2 ^ 31) with 2147483648 in *. lia. }
  rewrite cudaMalloc_fail by done.
  rewrite cudaMalloc_fail by done.
  match goal with
  | |- context [processImage_rest ?p Wild _ _ _ _ (MkWorld _ ?m ?f _ _ _ ?t)] =>
    destruct (processImage_rest_wild_output p input output width height
                hm m f junk sched t) as (dm' & fr' & evs & E)
  end.
  rewrite E. cbn [snd host_mem trace]. split; [done|].
  exists evs. repeat rewrite <- app_assoc. reflexivity.
Qed.

Lemma processImage_negative_size_minus2x2 :
  let w' := exec (processImage (Host 1) (Host 2) (-2) 2) world_2x2 in
  host_mem w' = host_mem world_2x2 ∧
  ∃ evs,
    trace w' = trace world_2x2 ++
      [ EvMalloc (2 ^ 64 + -2 * 2 * 3) cudaErrorMemoryAllocation Wild;
        EvMalloc (2 ^ 64 + -2 * 2 * 3) cudaErrorMemoryAllocation Wild ]
      ++ evs.
Proof.
  apply (processImage_negative_size world_2x2 (Host 1) (Host 2) (-2) 2).
  - unfold INT_MIN. lia.
  - reflexivity.
  - vm_compute. reflexivity.
Defined.

(** ** Buffers larger than the image, and a call in place *)

Lemma blit_prefix (dst src : list byte) count :
  0 ≤ count → Z.of_nat (length dst) = count →
  count ≤ Z.of_nat (length src) →
  blit dst src count = take (Z.to_nat count) src.
Proof.
  intros H0 Hd Hs. unfold blit. rewrite drop_ge by lia. apply app_nil_r.
Qed.

(** The run of [processImage] on a [width] x [height] image that fits an
    [int], between two host buffers of at least [width * height * 3] bytes
    (possibly the same buffer), on an idle device with room for the two
    device buffers. *)
Lemma processImage_roomy_run a o width height bin bout hm dm fr junk sched tr :
  0 < width → 0 < height → width * height * 3 ≤ INT_MAX →
  hm !! a = Some bin → width * height * 3 ≤ Z.of_nat (length bin) →
  hm !! o = Some bout → width * height * 3 ≤ Z.of_nat (length bout) →
  2 * (width * height * 3) ≤ fr →
  ∃ tr',
    processImage (Host a) (Host o) width height
                 (MkWorld hm dm fr junk sched [] tr)
    = (tt,
       MkWorld (<[o := take (Z.to_nat (width * height * 3)) bin
                       ++ drop (Z.to_nat (width * height * 3)) bout]> hm)
               dm fr junk sched [] tr').
Proof.
  intros Hw Hh Hfit Ha Hla Ho Hlo Hfree.
  assert (width ≤ INT_MAX ∧ height ≤ INT_MAX) as [? ?]
    by (unfold INT_MAX in *; nia).
  unfold processImage. rewrite !byte_count_exact by done.
  set (n := width * height * 3) in *. assert (0 ≤ n) by lia.
  unfold mbind, HostM_bind, mret, HostM_ret.
  (* the two allocations *)
  rewrite cudaMalloc_ok by lia. cbv beta iota zeta.
  set (h1 := fresh (dom dm)).
  set (b1 := junk <$> seq 0 (Z.to_nat n)).
  rewrite cudaMalloc_ok by lia. cbv beta iota zeta. fold b1.
  set (h2 := fresh (dom (<[h1 := b1]> dm))).
  assert (dm !! h1 = None) as Hh1 by apply fresh_lookup_None.
  assert (<[h1 := b1]> dm !! h2 = None) as Hh2 by apply fresh_lookup_None.
  assert (h1 ≠ h2) as Hne.
  { intros Heq. rewrite <- Heq, lookup_insert_eq in Hh2. done. }
  rewrite lookup_insert_ne in Hh2 by done.
  assert (Z.of_nat (length b1) = n) as Hlb1
    by (apply length_fresh_buffer; lia).
  (* copy in: the first n bytes of the input *)
  rewrite (cudaMemcpy_h2d_ok h1 a n b1 bin); try lia.
  2:{ by rewrite lookup_insert_ne, lookup_insert_eq. }
  2:{ done. }
  cbv beta iota zeta.
  rewrite (blit_prefix b1 bin) by lia.
  set (img := take (Z.to_nat n) bin).
  assert (Z.of_nat (length img) = n) as Hlimg.
  { unfold img. rewrite length_take. lia. }
  (* launch *)
  rewrite cudaLaunchKernel_ok; simpl app.
  2,3: rewrite ?dimGrid_x, ?dimGrid_y by lia; Z.div_mod_to_equations; lia.
  2,3: done.
  cbv beta iota zeta.
  (* the device runs the kernel, then the copy out *)
  rewrite cudaMemcpy_drain, drain_one.
  match goal with
  | |- context [run_launch (MkWorld _ ?m ?f _ _ ?q ?t) _] =>
    destruct (run_launch_copy h1 h2 img b1 width height hm m f junk sched q t)
      as (log & Hlog & Hstores & Hrun); try done
  end.
  { by rewrite lookup_insert_eq. }
  { by rewrite lookup_insert_ne, lookup_insert_eq. }
  { lia. }
  rewrite Hrun. unfold set_dev_queue. cbn [host_mem dev_mem dev_free dev_junk
    dev_sched dev_queue trace].
  rewrite (cudaMemcpy_d2h_ok o h2 n bout img); try lia.
  2:{ done. }
  2:{ by rewrite lookup_insert_eq. }
  cbv beta iota zeta.
  assert (blit bout img n = img ++ drop (Z.to_nat n) bout) as ->.
  { unfold blit. by rewrite take_ge by lia. }
  (* release *)
  rewrite (cudaFree_ok h1 img).
  2:{ by rewrite lookup_insert_ne, lookup_insert_eq. }
  cbv beta iota zeta.
  rewrite (cudaFree_ok h2 img).
  2:{ by rewrite lookup_delete_ne, lookup_insert_eq. }
  eexists. f_equal. f_equal.
  - apply map_eq. intros h.
    destruct (decide (h = h2)) as [->|?]; [by rewrite lookup_delete_eq|].
    rewrite lookup_delete_ne by done.
    destruct (decide (h = h1)) as [->|?]; [by rewrite lookup_delete_eq|].
    rewrite lookup_delete_ne by done.
    by rewrite !lookup_insert_ne.
  - lia.
Qed.





(** ** An input the runtime cannot read *)

Lemma cudaMemcpy_h2d_unmapped dst a count hm dm fr junk sched tr :
  hm !! a = None →
  cudaMemcpy dst (Host a) count cudaMemcpyHostToDevice
             (MkWorld hm dm fr junk sched [] tr)
  = (cudaErrorInvalidValue,
     MkWorld hm dm fr junk sched []
       (tr ++ [EvMemcpy dst (Host a) count cudaMemcpyHostToDevice
                        cudaErrorInvalidValue])).
Proof.
  intros Ha. unfold cudaMemcpy. rewrite drain_idle. cbv zeta.
  destruct dst as [a0|h|]; simpl; try done.
  rewrite Ha. by destruct (dm !! h).
Qed.

Lemma cudaMemcpy_h2d_unreadable dst input count hm dm fr junk sched tr :
  input = Wild ∨ (∃ a, input = Host a ∧ hm !! a = None) →
  cudaMemcpy dst input count cudaMemcpyHostToDevice
             (MkWorld hm dm fr junk sched [] tr)
  = (cudaErrorInvalidValue,
     MkWorld hm dm fr junk sched []
       (tr ++ [EvMemcpy dst input count cudaMemcpyHostToDevice
                        cudaErrorInvalidValue])).
Proof.
  intros [->|(a & -> & Ha)].
  - apply cudaMemcpy_wild_src.
  - by apply cudaMemcpy_h2d_unmapped.
Qed.



(** The uninitialised bytes the caller gets in that case. *)
Example processImage_unreadable_input_bytes :
  host_mem (exec (processImage Wild (Host 2) 2 2) world_2x2_stale) !! 2%positive
  = Some [xa0; xa1; xa2; xa3; xa4; xa5; xa6; xa7; xa8; xa9; xaa; xab].
Proof. vm_compute. reflexivity. Qed.

(** * More on the kernel *)

(** ** Which memory the kernel touches *)

Lemma processImageKernel_kernel_access input output width height bi bd ti :
  within output (kernel_access input output)
         (processImageKernel input output width height bi bd ti).
Proof.
  unfold processImageKernel.
  destruct (bool_decide (kernel_x bi bd ti < width)
            && bool_decide (kernel_y bi bd ti < height)); [|apply within_ret].
  simpl.
  repeat (first
    [ apply within_ret
    | apply within_load; [intros ?| |intros ?]
    | apply within_store ]);
  simpl; auto.
Qed.


(** ** How many threads do the work *)

Lemma length_bind_thread_stores width height bd (ts : list thread) :
  length (ts ≫= thread_stores width height bd)
  = (3 * length (filter (in_image width height bd) ts))%nat.
Proof.
  induction ts as [|t ts IH]; [done|]. csimpl. rewrite length_app, IH.
  unfold thread_stores at 1.
  destruct (decide (in_image width height bd t)) as [Hin|Hout].
  - rewrite filter_cons_True by done. destruct Hin as [Hx Hy].
    unfold thread_pixel in Hx, Hy. simpl in Hx, Hy.
    rewrite (bool_decide_eq_true_2 _ Hx), (bool_decide_eq_true_2 _ Hy).
    simpl. lia.
  - rewrite filter_cons_False by done.
    assert (bool_decide (kernel_x (blockIdx t) bd (threadIdx t) < width)
            && bool_decide (kernel_y (blockIdx t) bd (threadIdx t) < height)
            = false) as ->; [|simpl; lia].
    apply andb_false_iff.
    destruct (decide (kernel_x (blockIdx t) bd (threadIdx t) < width));
      [|left; by apply bool_decide_eq_false].
    right. apply bool_decide_eq_false. intros Hy. apply Hout. by split.
Qed.

Lemma length_bind_const {A B} (f : A → list B) (l : list A) k :
  (∀ x, length (f x) = k) → length (l ≫= f) = (length l * k)%nat.
Proof.
  intros Hk. induction l as [|x l IH]; [done|].
  csimpl. rewrite length_app, IH, Hk. lia.
Qed.

Lemma length_grid_threads g b :
  length (grid_threads g b)
  = (Z.to_nat (dim3_y g) * (Z.to_nat (dim3_x g)
     * (Z.to_nat (dim3_y b) * (Z.to_nat (dim3_x b) * 1))))%nat.
Proof.
  unfold grid_threads.
  rewrite (length_bind_const _ _
    (Z.to_nat (dim3_x g) * (Z.to_nat (dim3_y b) * (Z.to_nat (dim3_x b) * 1))));
    [by rewrite length_seqZ|].
  intros by_.
  rewrite (length_bind_const _ _
    (Z.to_nat (dim3_y b) * (Z.to_nat (dim3_x b) * 1)));
    [by rewrite length_seqZ|].
  intros bx.
  rewrite (length_bind_const _ _ (Z.to_nat (dim3_x b) * 1));
    [by rewrite length_seqZ|].
  intros ty.
  rewrite (length_bind_const _ _ 1); [by rewrite length_seqZ|]. done.
Qed.



(** ** The kernel under another launch geometry *)

(** The coordinate line 6 (or 7) computes in a grid of [gb] blocks of [b]
    threads whose extent [gb * b] does not exceed 2^31. *)
Lemma cover_coord_exact gb b bi ti :
  0 < b → gb * b ≤ 2 ^ 31 → 0 ≤ bi < gb → 0 ≤ ti < b →
  to_int (uadd (umul bi b) ti) = bi * b + ti ∧ 0 ≤ bi * b + ti < gb * b.
Proof.
  change (2 ^ 31) with 2147483648. intros Hb Hext Hbi Hti.
  assert (bi * b ≤ (gb - 1) * b) by (apply Z.mul_le_mono_nonneg_r; lia).
  assert (0 ≤ bi * b) by (apply Z.mul_nonneg_nonneg; lia).
  unfold uadd, umul.
  rewrite (to_uint_id (bi * b)) by in_uint.
  rewrite to_uint_id by in_uint.
  rewrite to_int_id by in_int.
  lia.
Qed.

Lemma cover_thread_coords g b t :
  0 < dim3_x b → 0 < dim3_y b →
  dim3_x g * dim3_x b ≤ 2 ^ 31 → dim3_y g * dim3_y b ≤ 2 ^ 31 →
  t ∈ grid_threads g b →
  kernel_x (blockIdx t) b (threadIdx t)
    = dim3_x (blockIdx t) * dim3_x b + dim3_x (threadIdx t) ∧
  kernel_y (blockIdx t) b (threadIdx t)
    = dim3_y (blockIdx t) * dim3_y b + dim3_y (threadIdx t) ∧
  0 ≤ kernel_x (blockIdx t) b (threadIdx t) ∧
  0 ≤ kernel_y (blockIdx t) b (threadIdx t) ∧
  0 ≤ dim3_x (threadIdx t) < dim3_x b ∧
  0 ≤ dim3_y (threadIdx t) < dim3_y b.
Proof.
  intros Hbx Hby Hex Hey Ht. apply elem_of_grid_threads in Ht.
  destruct Ht as (Hgx & Hgy & Htx & Hty).
  destruct (cover_coord_exact _ _ _ _ Hbx Hex Hgx Htx) as [Hx ?].
  destruct (cover_coord_exact _ _ _ _ Hby Hey Hgy Hty) as [Hy ?].
  unfold kernel_x, kernel_y. rewrite Hx, Hy. lia.
Qed.

Lemma elem_of_thread_stores_cover width height bd t j :
  0 < width → 0 < height → width * height * 3 ≤ INT_MAX →
  0 ≤ kernel_x (blockIdx t) bd (threadIdx t) →
  0 ≤ kernel_y (blockIdx t) bd (threadIdx t) →
  j ∈ thread_stores width height bd t ↔ thread_done width height bd t j.
Proof.
  intros Hw Hh Hfit Hx0 Hy0.
  unfold thread_stores, thread_done.
  set (x := kernel_x (blockIdx t) bd (threadIdx t)) in *.
  set (y := kernel_y (blockIdx t) bd (threadIdx t)) in *.
  destruct (bool_decide (x < width)) eqn:Hx;
    [apply bool_decide_eq_true in Hx|apply bool_decide_eq_false in Hx].
  2:{ simpl. rewrite elem_of_nil. split; [done|]. intros (? & _). lia. }
  destruct (bool_decide (y < height)) eqn:Hy;
    [apply bool_decide_eq_true in Hy|apply bool_decide_eq_false in Hy].
  2:{ simpl. rewrite elem_of_nil. split; [done|]. intros (_ & ? & _). lia. }
  simpl. rewrite !(subscript_exact width height) by lia.
  rewrite !elem_of_cons, elem_of_nil. split.
  - intros [->|[->|[->|[]]]]; (split_and!; [done..|]);
      [exists 0|exists 1|exists 2]; (split; [lia|done]).
  - intros (_ & _ & c & Hc & ->).
    assert (c = 0 ∨ c = 1 ∨ c = 2) as [->|[->| ->]] by lia; tauto.
Qed.

(** Over any launch that covers the image without overflowing the
    coordinates, every subscript below [width * height * 3] belongs to
    exactly one thread, once. *)
Lemma cover_stores_once g b width height :
  0 < dim3_x b → 0 < dim3_y b →
  width ≤ dim3_x g * dim3_x b ≤ 2 ^ 31 →
  height ≤ dim3_y g * dim3_y b ≤ 2 ^ 31 →
  0 < width → 0 < height → width * height * 3 ≤ INT_MAX →
  grid_threads g b ≫= thread_stores width height b
  ≡ₚ seqZ 0 (width * height * 3).
Proof.
  intros Hbx Hby [Hcx Hex] [Hcy Hey] Hw Hh Hfit.
  apply NoDup_Permutation.
  - apply NoDup_bind; [| |apply NoDup_grid_threads].
    + intros t1 t2 j Ht1 Ht2 Hj1 Hj2.
      destruct (cover_thread_coords g b t1)
        as (Ex1 & Ey1 & ? & ? & ? & ?); try done.
      destruct (cover_thread_coords g b t2)
        as (Ex2 & Ey2 & ? & ? & ? & ?); try done.
      apply elem_of_thread_stores_cover in Hj1, Hj2; try done.
      destruct Hj1 as (Hx1 & Hy1 & c1 & Hc1 & ->).
      destruct Hj2 as (Hx2 & Hy2 & c2 & Hc2 & Heq).
      assert (kernel_y (blockIdx t1) b (threadIdx t1) * width
              + kernel_x (blockIdx t1) b (threadIdx t1)
              = kernel_y (blockIdx t2) b (threadIdx t2) * width
                + kernel_x (blockIdx t2) b (threadIdx t2)) as Hp by lia.
      destruct (Z.div_mod_unique width
                  (kernel_y (blockIdx t1) b (threadIdx t1))
                  (kernel_y (blockIdx t2) b (threadIdx t2))
                  (kernel_x (blockIdx t1) b (threadIdx t1))
                  (kernel_x (blockIdx t2) b (threadIdx t2)))
        as [HY HX]; [lia|lia|lia|].
      rewrite Ex1, Ex2 in HX. rewrite Ey1, Ey2 in HY.
      destruct t1 as [[bx1 by1] [tx1 ty1]], t2 as [[bx2 by2] [tx2 ty2]].
      simpl in *.
      destruct (Z.div_mod_unique (dim3_x b) bx1 bx2 tx1 tx2)
        as [-> ->]; [lia|lia|lia|].
      destruct (Z.div_mod_unique (dim3_y b) by1 by2 ty1 ty2)
        as [-> ->]; [lia|lia|lia|].
      done.
    + intros t Ht. unfold thread_stores.
      destruct (bool_decide _ && bool_decide _) eqn:Hg; [|constructor].
      apply andb_true_iff in Hg as [Hx Hy].
      apply bool_decide_eq_true in Hx, Hy.
      destruct (cover_thread_coords g b t)
        as (Ex & Ey & ? & ? & ? & ?); try done.
      rewrite !(subscript_exact width height) by lia.
      repeat (apply NoDup_cons; split;
              [rewrite ?elem_of_cons, elem_of_nil; lia|]).
      constructor.
  - apply NoDup_seqZ.
  - intros j. rewrite list_elem_of_bind, elem_of_seqZ. split.
    + intros (t & Hj & Ht).
      destruct (cover_thread_coords g b t)
        as (Ex & Ey & ? & ? & ? & ?); try done.
      apply elem_of_thread_stores_cover in Hj; try done.
      destruct Hj as (Hx & Hy & c & Hc & ->).
      set (x := kernel_x (blockIdx t) b (threadIdx t)) in *.
      set (y := kernel_y (blockIdx t) b (threadIdx t)) in *.
      assert (y * width ≤ (height - 1) * width)
        by (apply Z.mul_le_mono_nonneg_r; lia).
      assert (0 ≤ y * width) by (apply Z.mul_nonneg_nonneg; lia).
      lia.
    + intros Hj.
      assert (width ≤ width * height ∧ height ≤ width * height) as [? ?]
        by nia.
      set (p := j / 3). set (x := p mod width). set (y := p / width).
      assert (0 ≤ p < width * height)
        by (subst p; Z.div_mod_to_equations; lia).
      assert (0 ≤ x < width) by (subst x; apply Z.mod_pos_bound; lia).
      assert (0 ≤ y < height).
      { subst y. split; [apply Z.div_pos; lia|].
        apply Z.div_lt_upper_bound; lia. }
      assert (p = y * width + x).
      { subst x y. pose proof (Z.div_mod p width). lia. }
      set (t := Thread (Dim3 (x / dim3_x b) (y / dim3_y b))
                       (Dim3 (x mod dim3_x b) (y mod dim3_y b))).
      assert (t ∈ grid_threads g b) as Ht.
      { apply elem_of_grid_threads. simpl.
        pose proof (Z.mod_pos_bound x (dim3_x b) Hbx).
        pose proof (Z.mod_pos_bound y (dim3_y b) Hby).
        assert (0 ≤ x / dim3_x b) by (apply Z.div_pos; lia).
        assert (0 ≤ y / dim3_y b) by (apply Z.div_pos; lia).
        assert (x / dim3_x b < dim3_x g)
          by (apply Z.div_lt_upper_bound; lia).
        assert (y / dim3_y b < dim3_y g)
          by (apply Z.div_lt_upper_bound; lia).
        lia. }
      destruct (cover_thread_coords g b t)
        as (Ex & Ey & ? & ? & ? & ?); try done.
      assert (kernel_x (blockIdx t) b (threadIdx t) = x) as Hkx.
      { rewrite Ex. unfold t. cbn [blockIdx threadIdx dim3_x dim3_y].
        pose proof (Z.div_mod x (dim3_x b)). lia. }
      assert (kernel_y (blockIdx t) b (threadIdx t) = y) as Hky.
      { rewrite Ey. unfold t. cbn [blockIdx threadIdx dim3_x dim3_y].
        pose proof (Z.div_mod y (dim3_y b)). lia. }
      exists t. split; [|done].
      apply elem_of_thread_stores_cover; try done.
      unfold thread_done. rewrite Hkx, Hky. split_and!; [lia..|].
      exists (j mod 3). split; [apply Z.mod_pos_bound; lia|].
      pose proof (Z.div_mod j 3). subst p. lia.
Qed.



(** ** The kernel in place *)

(** The code of a thread on one buffer of at least [width * height * 3]
    bytes that is both input and output. *)
Lemma copies_kernel_in_place h buf width height bd t :
  0 < width → 0 < height → width * height * 3 ≤ INT_MAX →
  width * height * 3 ≤ Z.of_nat (length buf) →
  0 ≤ kernel_x (blockIdx t) bd (threadIdx t) →
  0 ≤ kernel_y (blockIdx t) bd (threadIdx t) →
  copies h h buf (thread_stores width height bd t)
    (processImageKernel (Device h) (Device h) width height
                        (blockIdx t) bd (threadIdx t)).
Proof.
  intros Hw Hh Hfit Hlen Hx0 Hy0. unfold processImageKernel, thread_stores.
  set (x := kernel_x (blockIdx t) bd (threadIdx t)) in *.
  set (y := kernel_y (blockIdx t) bd (threadIdx t)) in *.
  destruct (bool_decide (x < width)) eqn:Hx;
    [apply bool_decide_eq_true in Hx|apply copies_ret].
  destruct (bool_decide (y < height)) eqn:Hy;
    [apply bool_decide_eq_true in Hy|apply copies_ret].
  simpl.
  rewrite !(subscript_exact width height) by lia.
  assert (y * width ≤ (height - 1) * width)
    by (apply Z.mul_le_mono_nonneg_r; lia).
  assert (0 ≤ y * width) by (apply Z.mul_nonneg_nonneg; lia).
  assert (∀ c, 0 ≤ c < 3 →
            is_Some (buf !! Z.to_nat (3 * (y * width + x) + c))) as Hsome.
  { intros c Hc. apply lookup_lt_is_Some_2. lia. }
  apply copies_load; [lia|apply Hsome; lia|intros v0 Hv0].
  apply copies_store; [lia|done|].
  apply copies_load; [lia|apply Hsome; lia|intros v1 Hv1].
  apply copies_store; [lia|done|].
  apply copies_load; [lia|apply Hsome; lia|intros v2 Hv2].
  apply copies_store; [lia|done|].
  constructor.
Qed.

(** One memory operation of a thread that copies a buffer onto itself: it
    does not trap and memory stays as it is. *)
Lemma step_in_place h buf todo code s :
  copies h h buf todo code → k_mem s !! h = Some buf →
  ∃ code' todo',
    (step code s).1 = Some code' ∧ copies h h buf todo' code' ∧
    k_mem (step code s).2 = k_mem s.
Proof.
  intros Hcode Hm.
  destruct Hcode as [|i todo k Hi [v Hv] Hk|i v todo k Hi Hv Hk]; simpl.
  - exists (Ret tt), []. split_and!; [done|constructor|done].
  - unfold in_bounds. rewrite Hm. simpl. rewrite decide_True by done.
    rewrite Hv. simpl. exists (k v), (i :: todo). split_and!; [done|auto|done].
  - unfold in_bounds. rewrite Hm. simpl. rewrite decide_True by done.
    rewrite Hv. simpl. exists k, todo. split_and!; [done..|].
    apply map_eq. intros h'. rewrite lookup_alter. case_decide; [subst h'|done].
    rewrite Hm. simpl. by rewrite list_insert_id.
Qed.

Lemma run_schedule_in_place h buf schedule pool s :
  pool_in_place h buf pool → k_mem s !! h = Some buf →
  pool_in_place h buf (run_schedule schedule pool s).1 ∧
  k_mem (run_schedule schedule pool s).2 = k_mem s.
Proof.
  revert pool s. induction schedule as [|j schedule IH]; intros pool s Hp Hm.
  - done.
  - simpl. destruct (pool !! j) as [[code|]|] eqn:Hj; try by apply IH.
    destruct (Forall_lookup_1 _ _ _ _ Hp Hj) as (todo & c & [= <-] & Hc).
    destruct (step_in_place h buf todo code s Hc Hm)
      as (code' & todo' & Hs & Hc' & Hmem).
    destruct (step code s) as [r s1]. simpl in *. subst r.
    destruct (IH (<[j := Some code']> pool) s1) as [Hp' Hm'].
    { apply Forall_insert; [done|]. by exists todo', code'. }
    { by rewrite Hmem. }
    split; [done|]. by rewrite Hm'.
Qed.

Lemma finish_in_place h buf todo code s :
  copies h h buf todo code → k_mem s !! h = Some buf →
  ∃ s', finish code s = (true, s') ∧ k_mem s' = k_mem s.
Proof.
  intros Hc Hm.
  destruct (finish_by_steps
              (λ c s0, (∃ td, copies h h buf td c) ∧ k_mem s0 = k_mem s))
    with (code := code) (s := s) as (s' & Hfin & _ & Hmem).
  - intros c s0 [(td & Hc0) Hm0].
    destruct (step_in_place h buf td c s0 Hc0) as (c' & td' & Hs & Hc' & Hm');
      [by rewrite Hm0|].
    exists c'. split; [done|]. split; [by exists td'|]. by rewrite Hm'.
  - split; [by exists todo|done].
  - by exists s'.
Qed.

Lemma finish_all_in_place h buf pool s :
  pool_in_place h buf pool → k_mem s !! h = Some buf →
  ∃ s', finish_all pool s = (true, s') ∧ k_mem s' = k_mem s.
Proof.
  revert s. induction pool as [|tp pool IH]; intros s Hp Hm.
  - by exists s.
  - apply Forall_cons in Hp as [(todo & code & -> & Hc) Hp].
    destruct (finish_in_place h buf todo code s Hc Hm) as (s1 & Hfin & Hm1).
    destruct (IH s1 Hp) as (s2 & Hfin2 & Hm2); [by rewrite Hm1|].
    exists s2. simpl. rewrite Hfin, Hfin2. split; [done|]. by rewrite Hm2, Hm1.
Qed.

(** X11.  The kernel may be run in place.  With [input] and [output] the same
    device buffer of at least [width * height * 3] bytes, under any grid and
    block with extents of at most 2^31 threads in each direction and under
    every schedule, no thread traps and device memory is left exactly as it
    was. *)
Theorem kernel_in_place (g b : dim3) (width height : Z) (h : positive)
    (buf : list byte) (m : gmap positive (list byte)) (schedule : list nat) :
  0 < dim3_x b → 0 < dim3_y b →
  dim3_x g * dim3_x b ≤ 2 ^ 31 → dim3_y g * dim3_y b ≤ 2 ^ 31 →
  0 < width → 0 < height → width * height * 3 ≤ INT_MAX →
  m !! h = Some buf → width * height * 3 ≤ Z.of_nat (length buf) →
  ∃ s',
    run_kernel schedule
      (λ t, processImageKernel (Device h) (Device h) width height
                               (blockIdx t) b (threadIdx t))
      (grid_threads g b) (KState m []) = (true, s') ∧
    k_mem s' = m.
Proof.
  intros Hbx Hby Hex Hey Hw Hh Hfit Hm Hlen. unfold run_kernel.
  destruct (run_schedule_in_place h buf schedule
              ((λ t, Some (processImageKernel (Device h) (Device h) width
                             height (blockIdx t) b (threadIdx t)))
               <$> grid_threads g b) (KState m [])) as [Hp Hmem]; [|done|].
  { apply Forall_fmap, Forall_forall. intros t Ht.
    exists (thread_stores width height b t). eexists. split; [done|].
    destruct (cover_thread_coords g b t) as (_ & _ & ? & ? & _); try done.
    by apply copies_kernel_in_place. }
  destruct (run_schedule schedule _ (KState m [])) as [pool s1].
  simpl in Hp, Hmem.
  destruct (finish_all_in_place h buf pool s1 Hp) as (s' & Hfin & Hm');
    [by rewrite Hmem|].
  exists s'. split; [done|]. by rewrite Hm', Hmem.
Qed.

Lemma kernel_in_place_2x2 :
  ∃ s',
    run_kernel (lockstep (grid_threads (Dim3 1 1) (Dim3 16 16)))
      (λ t, processImageKernel (Device 1) (Device 1) 2 2
                               (blockIdx t) (Dim3 16 16) (threadIdx t))
      (grid_threads (Dim3 1 1) (Dim3 16 16)) (KState device_2x2 [])
    = (true, s') ∧
    k_mem s' = device_2x2.
Proof.
  apply (kernel_in_place (Dim3 1 1) (Dim3 16 16) 2 2 1 rgb_2x2 device_2x2).
  - simpl. lia.
  - simpl. lia.
  - simpl. lia.
  - simpl. lia.
  - lia.
  - lia.
  - unfold INT_MAX. lia.
  - reflexivity.
  - vm_compute. discriminate.
Defined.

(** ** The kernel on an image without pixels *)

Lemma run_schedule_returned schedule (pool : list (option (K unit))) s :
  Forall (λ tp, tp = Some (Ret tt)) pool →
  run_schedule schedule pool s = (pool, s).
Proof.
  intros Hp. induction schedule as [|j schedule IH]; [done|].
  simpl. destruct (pool !! j) as [[code|]|] eqn:Hj; try done.
  pose proof (Forall_lookup_1 _ _ _ _ Hp Hj) as [= ->]. simpl.
  by rewrite list_insert_id.
Qed.

Lemma finish_all_returned (pool : list (option (K unit))) s :
  Forall (λ tp, tp = Some (Ret tt)) pool → finish_all pool s = (true, s).
Proof.
  induction 1 as [|tp pool -> _ IH]; [done|]. simpl. by rewrite IH.
Qed.

(** X12.  With [width <= 0] or [height <= 0] the guard stops every thread:
    under any grid and block with extents of at most 2^31 threads in each
    direction, whatever the pointers, the schedule and the device memory,
    the kernel makes no memory access at all. *)
Theorem kernel_without_pixels (g b : dim3) (input output : ptr)
    (width height : Z) (m : gmap positive (list byte)) (schedule : list nat) :
  width ≤ 0 ∨ height ≤ 0 →
  0 < dim3_x b → 0 < dim3_y b →
  dim3_x g * dim3_x b ≤ 2 ^ 31 → dim3_y g * dim3_y b ≤ 2 ^ 31 →
  run_kernel schedule
    (λ t, processImageKernel input output width height
                             (blockIdx t) b (threadIdx t))
    (grid_threads g b) (KState m [])
  = (true, KState m []).
Proof.
  intros Hz Hbx Hby Hex Hey. unfold run_kernel.
  assert (Forall (λ tp, tp = Some (Ret tt))
            ((λ t, Some (processImageKernel input output width height
                           (blockIdx t) b (threadIdx t)))
             <$> grid_threads g b)) as Hp.
  { apply Forall_fmap, Forall_forall. intros t Ht. simpl. f_equal.
    destruct (cover_thread_coords g b t) as (_ & _ & ? & ? & _); try done.
    unfold processImageKernel. destruct Hz as [Hz|Hz].
    - by rewrite (bool_decide_eq_false_2 (_ < width)) by lia.
    - rewrite (bool_decide_eq_false_2 (_ < height)) by lia.
      by rewrite andb_false_r. }
  rewrite run_schedule_returned by done. by apply finish_all_returned.
Qed.

Lemma kernel_without_pixels_0x2 :
  run_kernel (lockstep (grid_threads (Dim3 1 1) (Dim3 16 16)))
    (λ t, processImageKernel (Device 1) (Device 2) 0 2
                             (blockIdx t) (Dim3 16 16) (threadIdx t))
    (grid_threads (Dim3 1 1) (Dim3 16 16)) (KState device_2x2 [])
  = (true, KState device_2x2 []).
Proof.
  apply (kernel_without_pixels (Dim3 1 1) (Dim3 16 16) (Device 1) (Device 2)
           0 2 device_2x2).
  - left. lia.
  - simpl. lia.
  - simpl. lia.
  - simpl. lia.
  - simpl. lia.
Defined.
